(** * DESC: linear constraint objectives and optimizer wrappers

    A shallow embedding of
    - [desc/objectives/linear_objectives.py] (the [Fix*] linear objectives),
    - [desc/optimize/_desc_wrappers.py] (the drivers registered for
      ["lsq-exact"], ["dogleg"], ["subspace"], ["dogleg-bfgs"],
      ["subspace-bfgs"] and ["sgd"]),
    - the backend [sign] exercised by [tests/test_backend.py].

    Python exceptions are values of [exn]; a call that may raise returns a
    [result].  Arrays are lists, dictionaries are [gmap]s keyed by strings,
    and numbers are exact: an arbitrary commutative ring for the linear
    objectives, the canonical rationals [Qc] for the optimizer side. *)

From Stdlib Require Import ZArith QArith Qcanon Qcabs Qround List String Ascii Bool Lia Ring.
From stdpp Require Import base option list gmap strings.

Import ListNotations.
Local Open Scope Z_scope.

(** [[x]] is a one-element list throughout, never [Qcabs x]. *)
Disable Notation "[ q ]" : Qc_scope.

(** ** Exceptions and fallible calls *)

Inductive exn : Type :=
| AssertionError
| AttributeError
| IndexError
| KeyError
| RuntimeError
| TypeError
| UnboundLocalError
| UnknownMethodError
| ValueError.

Inductive result (A : Type) : Type :=
| Ok (a : A)
| Raise (e : exn).
Arguments Ok {A} a.
Arguments Raise {A} e.

#[global] Instance result_ret : MRet result := fun A a => Ok a.
#[global] Instance result_bind : MBind result := fun A B k r =>
  match r with
  | Ok a => k a
  | Raise e => Raise e
  end.

(** Reading an attribute that was never assigned raises [AttributeError]. *)
Definition getattr {A : Type} (o : option A) : result A :=
  match o with
  | Some a => Ok a
  | None => Raise AttributeError
  end.

(** ** [desc.backend.sign] *)

Module Backend.

(** [numpy.sign]: -1, 0 or +1. *)
Definition np_sign (x : Qc) : Qc :=
  match (x ?= 0)%Qc with
  | Lt => (- 1)%Qc
  | Eq => 0%Qc
  | Gt => 1%Qc
  end.

(** Modelled from the spec: [desc/backend.py], which defines [sign], is
    missing from the sources; [tests/test_backend.py] documents it as the
    "modified sign function to return +1 for x=0", that is
    [where(x == 0, 1, sign(x))]. *)
Definition sign (x : Qc) : Qc :=
  if Qc_eq_dec x 0%Qc then 1%Qc else np_sign x.

End Backend.

(** ** [desc/objectives/linear_objectives.py] *)

Module LinearObjectives.

(** The arithmetic the objectives use on array entries. *)
Class Scalar (T : Type) : Type := {
  zero : T;
  one : T;
  add : T -> T -> T;
  mul : T -> T -> T;
  sub : T -> T -> T;
  opp : T -> T
}.

#[global] Instance Z_Scalar : Scalar Z :=
  {| zero := 0; one := 1; add := Z.add; mul := Z.mul; sub := Z.sub; opp := Z.opp |}.

(** *** Arrays *)

(** A 2-D array of shape [(length rows, ncols)]; every row has [ncols]
    entries. *)
Record matrix (T : Type) : Type := { ncols : nat; rows : list (list T) }.
Arguments ncols {T} _.
Arguments rows {T} _.

Section Arrays.
Context {T : Type} `{Scalar T}.

(** [np.zeros((m, n))] *)
Definition np_zeros (m n : nat) : matrix T :=
  {| ncols := n; rows := replicate m (replicate n zero) |}.

(** Row [i] of [np.eye(n)]. *)
Definition eye_row (n i : nat) : list T :=
  map (fun j => if Nat.eqb j i then one else zero) (seq 0 n).

(** numpy index normalisation on an axis of length [n]: negative indices
    count from the end, anything outside [-n, n) raises [IndexError]. *)
Definition norm_index (n : nat) (i : Z) : result nat :=
  if (0 <=? i) && (i <? Z.of_nat n) then Ok (Z.to_nat i)
  else if (- Z.of_nat n <=? i) && (i <? 0) then Ok (Z.to_nat (Z.of_nat n + i))
  else Raise IndexError.

(** [x[i]] for an integer [i]. *)
Definition item {A : Type} (x : list A) (i : Z) : result A :=
  k ← norm_index (length x) i;
  match x !! k with
  | Some v => Ok v
  | None => Raise IndexError
  end.

(** [x[idx]] for an integer index array [idx]. *)
Definition take {A : Type} (x : list A) (idx : list Z) : result (list A) :=
  mapM (item x) idx.

(** [np.eye(n)[idx, :]] *)
Definition eye_take (n : nat) (idx : list Z) : result (matrix T) :=
  rs ← mapM (fun i => k ← norm_index n i; Ok (eye_row n k)) idx;
  Ok {| ncols := n; rows := rs |}.

(** [A[js, i] = v] for a list [js] of row positions. *)
Definition set_entries (A : matrix T) (js : list nat) (i : nat) (v : T) : matrix T :=
  {| ncols := ncols A;
     rows := foldl (fun rs j => alter (fun r => <[i := v]> r) j rs) (rows A) js |}.

Fixpoint dotv (r x : list T) : T :=
  match r, x with
  | a :: r', b :: x' => add (mul a b) (dotv r' x')
  | _, _ => zero
  end.

(** [jnp.dot(A, x)] for 2-D [A] and 1-D [x]; the contracted dimensions
    must agree. *)
Definition dot (A : matrix T) (x : list T) : result (list T) :=
  if Nat.eqb (ncols A) (length x) then Ok (map (fun r => dotv r x) (rows A))
  else Raise ValueError.

(** [a * x] and [x + y] on 1-D arrays of one length. *)
Definition scale (a : T) (x : list T) : list T := map (mul a) x.
Definition vadd (x y : list T) : list T := zip_with add x y.

End Arrays.

(** *** Basis modes and [np.intersect1d] *)

(** A row [l, m, n] of [basis.modes]. *)
Definition mode : Type := Z * Z * Z.

Definition mode_row (k : mode) : list Z :=
  let '(l, m, n) := k in [l; m; n].

(** Order of the structured view [('f0', 'f1', 'f2')]: field by field. *)
Definition mode_ltb (a b : mode) : bool :=
  let '(l1, m1, n1) := a in
  let '(l2, m2, n2) := b in
  (l1 <? l2) || ((l1 =? l2) && ((m1 <? m2) || ((m1 =? m2) && (n1 <? n2)))).

Fixpoint insert_unique (a : mode) (l : list mode) : list mode :=
  match l with
  | [] => [a]
  | b :: l' =>
      if mode_ltb a b then a :: b :: l'
      else if mode_ltb b a then b :: insert_unique a l'
      else b :: l'
  end.

(** [np.unique]: sorted, without repetitions. *)
Definition np_unique (l : list mode) : list mode := foldr insert_unique [] l.

(** Position of the first occurrence. *)
Definition first_index (a : mode) (l : list mode) : option Z :=
  (fun p => Z.of_nat (fst p)) <$> list_find (fun b => b = a) l.

(** [np.intersect1d(ar1, ar2, return_indices=True)]: the common values in
    sorted order, with the positions of their first occurrences in [ar1]
    and in [ar2]. *)
Definition intersect1d (ar1 ar2 : list mode) : list mode * list Z * list Z :=
  let common := filter (fun v => v ∈ ar2) (np_unique ar1) in
  (common,
   omap (fun v => first_index v ar1) common,
   omap (fun v => first_index v ar2) common).

(** *** The equilibrium, as far as the objectives read it *)

Record Basis : Type := { modes : list mode }.
Definition num_modes (b : Basis) : nat := length (modes b).

Record Surface (T : Type) : Type := {
  R_basis : Basis;
  R_lmn : list T;
  rho : T
}.
Arguments R_basis {T} _.
Arguments R_lmn {T} _.
Arguments rho {T} _.

Record Equilibrium (T : Type) : Type := {
  surface : Surface T;
  eq_R_basis : Basis;
  L_basis : Basis;
  bdry_mode : string;
  Psi : T
}.
Arguments surface {T} _.
Arguments eq_R_basis {T} _.
Arguments L_basis {T} _.
Arguments bdry_mode {T} _.
Arguments Psi {T} _.

(** *** Objective instances *)

(** The [modes] constructor argument: [True], [False], [None] or an array
    of [l, m, n] rows. *)
Inductive modes_arg : Type :=
| ModesTrue
| ModesFalse
| ModesNone
| ModesArray (ms : list mode).

(** The attributes of an objective instance that the modelled methods read
    or assign; [None] is an attribute not assigned yet, except for [target]
    where it is Python's [None]. *)
Record Objective (T : Type) : Type := {
  _A : option (matrix T);
  _idx : option (list Z);
  _dim_f : option nat;
  target : option (list T);
  _normalization : option T;
  _modes : modes_arg;
  _fixed_boundary : bool;
  _surface_label : option T;
  _normalize : bool
}.
Arguments _A {T} _.
Arguments _idx {T} _.
Arguments _dim_f {T} _.
Arguments target {T} _.
Arguments _normalization {T} _.
Arguments _modes {T} _.
Arguments _fixed_boundary {T} _.
Arguments _surface_label {T} _.
Arguments _normalize {T} _.

Definition set_A {T} (A : matrix T) (self : Objective T) : Objective T :=
  {| _A := Some A; _idx := _idx self; _dim_f := _dim_f self; target := target self;
     _normalization := _normalization self; _modes := _modes self;
     _fixed_boundary := _fixed_boundary self; _surface_label := _surface_label self;
     _normalize := _normalize self |}.

Definition set_idx {T} (idx : list Z) (self : Objective T) : Objective T :=
  {| _A := _A self; _idx := Some idx; _dim_f := _dim_f self; target := target self;
     _normalization := _normalization self; _modes := _modes self;
     _fixed_boundary := _fixed_boundary self; _surface_label := _surface_label self;
     _normalize := _normalize self |}.

Definition set_dim_f {T} (n : nat) (self : Objective T) : Objective T :=
  {| _A := _A self; _idx := _idx self; _dim_f := Some n; target := target self;
     _normalization := _normalization self; _modes := _modes self;
     _fixed_boundary := _fixed_boundary self; _surface_label := _surface_label self;
     _normalize := _normalize self |}.

Definition set_target {T} (t : list T) (self : Objective T) : Objective T :=
  {| _A := _A self; _idx := _idx self; _dim_f := _dim_f self; target := Some t;
     _normalization := _normalization self; _modes := _modes self;
     _fixed_boundary := _fixed_boundary self; _surface_label := _surface_label self;
     _normalize := _normalize self |}.

Definition set_normalization {T} (v : T) (self : Objective T) : Objective T :=
  {| _A := _A self; _idx := _idx self; _dim_f := _dim_f self; target := target self;
     _normalization := Some v; _modes := _modes self;
     _fixed_boundary := _fixed_boundary self; _surface_label := _surface_label self;
     _normalize := _normalize self |}.

(** A method body: it runs on [self], may assign attributes and may raise;
    the instance is returned as the method left it, also when it raised. *)
Definition method (T A : Type) : Type := Objective T -> Objective T * result A.

#[global] Instance method_ret {T} : MRet (method T) := fun A a self => (self, Ok a).
#[global] Instance method_bind {T} : MBind (method T) := fun A B k m self =>
  match m self with
  | (self', Ok a) => k a self'
  | (self', Raise e) => (self', Raise e)
  end.

Definition lift {T A} (r : result A) : method T A := fun self => (self, r).
Definition raise {T A} (e : exn) : method T A := lift (Raise e).
Definition gets {T A} (f : Objective T -> A) : method T A := fun self => (self, Ok (f self)).
Definition assign {T} (f : Objective T -> Objective T) : method T unit :=
  fun self => (f self, Ok tt).

(** [triple P m Q]: when [m] runs on an instance that satisfies [P] and
    returns [a] without raising, the instance it leaves satisfies [Q a]. *)
Definition triple {T A} (P : Objective T -> Prop) (m : method T A)
    (Q : A -> Objective T -> Prop) : Prop :=
  forall self self' a, P self -> m self = (self', Ok a) -> Q a self'.

(** The instance holds a well-formed [_A]. *)
Definition has_A {T} (self : Objective T) : Prop :=
  exists A, _A self = Some A /\ Forall (fun r => length r = ncols A) (rows A).

(** Code of the repository that the objectives call and that lives in other
    files: [desc.basis.zernike_radial],
    [desc.objectives.normalization.compute_scaling_factors] and the base
    class method [_Objective.build]. *)
Class Collaborators (T : Type) : Type := {
  zernike_radial : T -> Z -> Z -> T;
  compute_scaling_factors : Equilibrium T -> gmap string T;
  Objective_build : Equilibrium T -> method T unit
}.

Section Methods.
Context {T : Type} `{Scalar T} `{Collaborators T}.

Definition arange (n : nat) : list Z := Z.of_nat <$> seq 0 n.

(** [np.argwhere((modes[:, 1:] == [m, n]).all(axis=1))]: the rows whose
    last two columns are [m, n].  Rows that do not have two columns after
    the first cannot be compared with [[m, n]]. *)
Definition argwhere_mn (rows : list (list Z)) (m n : Z) : result (list nat) :=
  flags ← mapM (fun r => match tail r with
                         | [m'; n'] => Ok (bool_decide (m' = m) && bool_decide (n' = n))
                         | _ => Raise ValueError
                         end) rows;
  Ok (fst <$> filter (fun p => snd p = true) (imap pair flags)).

(** **** [FixBoundaryR] *)

(** The loop [for i, (l, m, n) in enumerate(eq.R_basis.modes)] of
    [FixBoundaryR.build], from position [i] on. *)
Fixpoint FixBoundaryR_fill (eq : Equilibrium T) (rows : list (list Z))
    (i : nat) (basis_modes : list mode) : method T unit :=
  match basis_modes with
  | [] => mret tt
  | (l, m, n) :: rest =>
      (if String.eqb (bdry_mode eq) "lcfs" then
         j ← lift (argwhere_mn rows m n);
         label ← gets _surface_label;
         let surf := match label with
                     | None => rho (surface eq)
                     | Some s => s
                     end in
         A ← gets _A;
         A ← lift (getattr A);
         assign (set_A (set_entries A j i (zernike_radial surf l m)))
       else mret tt);;
      FixBoundaryR_fill eq rows (S i) rest
  end.

Definition FixBoundaryR_build (eq : Equilibrium T) : method T unit :=
  sel ← gets _modes;
  sm ← match sel with
       | ModesFalse | ModesNone => mret ([[]], [], None)
       | ModesTrue =>
           mret (mode_row <$> modes (R_basis (surface eq)),
                 arange (num_modes (R_basis (surface eq))),
                 None)
       | ModesArray ms =>
           let '(_, idx, modes_idx) :=
             intersect1d (modes (R_basis (surface eq))) ms in
           picked ← lift (take (modes (R_basis (surface eq))) idx);
           mret (mode_row <$> picked, idx, Some modes_idx)
       end;
  let '(rows, idx, modes_idx) := sm in
  assign (set_dim_f (length idx));;
  tgt ← gets target;
  match tgt with
  | Some t =>
      match sel with
      | ModesTrue | ModesFalse => raise RuntimeError
      | _ =>
          match modes_idx with
          | None => raise UnboundLocalError
          | Some mi => t' ← lift (take t mi); assign (set_target t')
          end
      end
  | None => mret tt
  end;;
  fb ← gets _fixed_boundary;
  (if fb : bool then
     dim_f ← gets _dim_f;
     dim_f ← lift (getattr dim_f);
     assign (set_A (np_zeros dim_f (num_modes (eq_R_basis eq))));;
     FixBoundaryR_fill eq rows 0 (modes (eq_R_basis eq))
   else
     A ← lift (eye_take (num_modes (R_basis (surface eq))) idx);
     assign (set_A A));;
  tgt ← gets target;
  match tgt with
  | None => t ← lift (take (R_lmn (surface eq)) idx); assign (set_target t)
  | Some _ => mret tt
  end;;
  nrm ← gets _normalize;
  (if nrm : bool then
     match compute_scaling_factors eq !! "a" with
     | Some a => assign (set_normalization a)
     | None => raise KeyError
     end
   else mret tt);;
  Objective_build eq.

(** [self.args[0]], as [__init__] sets it. *)
Definition FixBoundaryR_arg (self : Objective T) : string :=
  if _fixed_boundary self then "R_lmn" else "Rb_lmn".

(** [compute(self, *args, **kwargs)] *)
Definition FixBoundaryR_compute (args : list (list T))
    (kwargs : gmap string (list T)) : method T (list T) :=
  name ← gets FixBoundaryR_arg;
  let x := match args with
           | a0 :: _ => Some (default a0 (kwargs !! name))
           | [] => kwargs !! name
           end in
  A ← gets _A;
  A ← lift (getattr A);
  match x with
  | Some x => lift (dot A x)
  | None => raise TypeError
  end.

(** **** [FixThetaSFL] *)

Definition FixThetaSFL_build (eq : Equilibrium T) : method T unit :=
  let idx := arange (num_modes (L_basis eq)) in
  let modes_idx := idx in
  assign (set_idx idx);;
  assign (set_dim_f (length modes_idx));;
  assign (set_target (replicate (length modes_idx) zero));;
  Objective_build eq.

Definition FixThetaSFL_compute (L_lmn : list T) : method T (list T) :=
  idx ← gets _idx;
  idx ← lift (getattr idx);
  lift (take L_lmn idx).

(** **** [FixPsi] *)

Definition FixPsi_build (eq : Equilibrium T) : method T unit :=
  assign (set_dim_f 1);;
  tgt ← gets target;
  match tgt with
  | None => assign (set_target [Psi eq])
  | Some _ => mret tt
  end;;
  nrm ← gets _normalize;
  (if nrm : bool then
     match compute_scaling_factors eq !! "Psi" with
     | Some a => assign (set_normalization a)
     | None => raise KeyError
     end
   else mret tt);;
  Objective_build eq.

(** [Psi] is a single number: an array of one entry. *)
Definition FixPsi_compute (Psi : list T) : method T (list T) := mret Psi.

(** **** The other objectives

    Their [compute] methods have one of two bodies:
    [jnp.dot(self._A, x)] or [x[self._idx]]. *)

Definition dot_A (x : list T) : method T (list T) :=
  A ← gets _A;
  A ← lift (getattr A);
  lift (dot A x).

Definition take_idx (x : list T) : method T (list T) :=
  idx ← gets _idx;
  idx ← lift (getattr idx);
  lift (take x idx).

Definition FixBoundaryZ_arg (self : Objective T) : string :=
  if _fixed_boundary self then "Z_lmn" else "Zb_lmn".

Definition FixBoundaryZ_compute (args : list (list T))
    (kwargs : gmap string (list T)) : method T (list T) :=
  name ← gets FixBoundaryZ_arg;
  let x := match args with
           | a0 :: _ => Some (default a0 (kwargs !! name))
           | [] => kwargs !! name
           end in
  A ← gets _A;
  A ← lift (getattr A);
  match x with
  | Some x => lift (dot A x)
  | None => raise TypeError
  end.

Definition FixLambdaGauge_compute (L_lmn : list T) : method T (list T) := dot_A L_lmn.
Definition FixAxisR_compute (R_lmn : list T) : method T (list T) := dot_A R_lmn.
Definition FixAxisZ_compute (Z_lmn : list T) : method T (list T) := dot_A Z_lmn.
Definition FixModeR_compute (R_lmn : list T) : method T (list T) := take_idx R_lmn.
Definition FixModeZ_compute (Z_lmn : list T) : method T (list T) := take_idx Z_lmn.
Definition FixSumModesR_compute (R_lmn : list T) : method T (list T) := dot_A R_lmn.
Definition FixSumModesZ_compute (Z_lmn : list T) : method T (list T) := dot_A Z_lmn.
Definition FixPressure_compute (p_l : list T) : method T (list T) := take_idx p_l.
Definition FixIota_compute (i_l : list T) : method T (list T) := take_idx i_l.
Definition FixCurrent_compute (c_l : list T) : method T (list T) := take_idx c_l.
Definition FixElectronTemperature_compute (Te_l : list T) : method T (list T) :=
  take_idx Te_l.
Definition FixElectronDensity_compute (ne_l : list T) : method T (list T) :=
  take_idx ne_l.
Definition FixIonTemperature_compute (Ti_l : list T) : method T (list T) :=
  take_idx Ti_l.
Definition FixAtomicNumber_compute (Zeff_l : list T) : method T (list T) :=
  take_idx Zeff_l.

End Methods.

(** The concrete classes of the module. *)
Inductive objective_class : Type :=
| FixBoundaryR | FixBoundaryZ | FixLambdaGauge | FixThetaSFL
| FixAxisR | FixAxisZ | FixModeR | FixModeZ | FixSumModesR | FixSumModesZ
| FixPressure | FixIota | FixCurrent | FixElectronTemperature
| FixElectronDensity | FixIonTemperature | FixAtomicNumber | FixPsi.

Section Dispatch.
Context {T : Type} `{Scalar T}.

(** [objective.compute(x)] on an instance of class [cls]. *)
Definition compute (cls : objective_class) (x : list T) : method T (list T) :=
  match cls with
  | FixBoundaryR => FixBoundaryR_compute [x] ∅
  | FixBoundaryZ => FixBoundaryZ_compute [x] ∅
  | FixLambdaGauge => FixLambdaGauge_compute x
  | FixThetaSFL => FixThetaSFL_compute x
  | FixAxisR => FixAxisR_compute x
  | FixAxisZ => FixAxisZ_compute x
  | FixModeR => FixModeR_compute x
  | FixModeZ => FixModeZ_compute x
  | FixSumModesR => FixSumModesR_compute x
  | FixSumModesZ => FixSumModesZ_compute x
  | FixPressure => FixPressure_compute x
  | FixIota => FixIota_compute x
  | FixCurrent => FixCurrent_compute x
  | FixElectronTemperature => FixElectronTemperature_compute x
  | FixElectronDensity => FixElectronDensity_compute x
  | FixIonTemperature => FixIonTemperature_compute x
  | FixAtomicNumber => FixAtomicNumber_compute x
  | FixPsi => FixPsi_compute x
  end.

(** The matrix of a class's [compute] on arguments of length [n]: the
    stored [_A], the rows [np.eye(n)[_idx, :]], or [np.eye(n)]. *)
Definition matrix_of (cls : objective_class) (self : Objective T) (n : nat)
    : result (matrix T) :=
  match cls with
  | FixBoundaryR | FixBoundaryZ | FixLambdaGauge | FixAxisR | FixAxisZ
  | FixSumModesR | FixSumModesZ => getattr (_A self)
  | FixPsi => eye_take n (arange n)
  | _ => idx ← getattr (_idx self); eye_take n idx
  end.

(** [a * x + b * y] *)
Definition lincomb (a : T) (x : list T) (b : T) (y : list T) : list T :=
  vadd (scale a x) (scale b y).

(** The base class [build] assigns none of [target], [_A] and [_idx]. *)
Definition base_build_frame `{Collaborators T} : Prop :=
  forall (eq : Equilibrium T) (self : Objective T),
    let self' := fst (Objective_build eq self) in
    target self' = target self /\ _A self' = _A self /\ _idx self' = _idx self.

End Dispatch.

(** *** A small equilibrium with integer coefficients *)

Module Sample.

(** Stand-ins for the collaborators: a base-class [build] that only
    returns, no scales, a radial polynomial that is 1 everywhere. *)
#[global] Instance collaborators : Collaborators Z :=
  {| zernike_radial := fun _ _ _ => 1;
     compute_scaling_factors := fun _ => ∅;
     Objective_build := fun _ => mret tt |}.

Definition basis : Basis := {| modes := [(0, 0, 0); (1, 1, 0); (2, 0, 0)] |}.

Definition eq : Equilibrium Z :=
  {| surface := {| R_basis := basis; R_lmn := [10; 1; 0]; rho := 1 |};
     eq_R_basis := basis;
     L_basis := basis;
     bdry_mode := "lcfs";
     Psi := 1 |}.

(** A freshly constructed objective: [target] given, [modes=True]. *)
Definition fresh : Objective Z :=
  {| _A := None; _idx := None; _dim_f := None; target := Some [5; 6; 7];
     _normalization := None; _modes := ModesTrue; _fixed_boundary := false;
     _surface_label := None; _normalize := false |}.

(** A freshly constructed objective with the defaults: no [target],
    [modes=True]. *)
Definition plain : Objective Z :=
  {| _A := None; _idx := None; _dim_f := None; target := None;
     _normalization := None; _modes := ModesTrue; _fixed_boundary := false;
     _surface_label := None; _normalize := false |}.

(** A freshly constructed objective for two chosen modes, given out of
    order, with their targets, and [fixed_boundary=True]. *)
Definition chosen : Objective Z :=
  {| _A := None; _idx := None; _dim_f := None; target := Some [7; 8];
     _normalization := None; _modes := ModesArray [(2, 0, 0); (0, 0, 0)];
     _fixed_boundary := true; _surface_label := None; _normalize := false |}.

(** A built objective. *)
Definition built : Objective Z :=
  {| _A := Some {| ncols := 3; rows := [[1; 0; 0]; [0; 2; 5]] |};
     _idx := Some [0; -1]; _dim_f := Some 2%nat; target := Some [10; 0];
     _normalization := None; _modes := ModesTrue; _fixed_boundary := false;
     _surface_label := None; _normalize := false |}.

End Sample.

End LinearObjectives.

(** ** [desc/optimize/_desc_wrappers.py] *)

Module Optimize.

Local Open Scope Qc_scope.

(** *** Arguments of the drivers *)

(** An [ObjectiveFunction], as far as the drivers use it: pure callables
    on arrays. *)
Record ObjectiveFunction : Type := {
  compute : list Qc -> list Qc;
  jac : list Qc -> list (list Qc);
  compute_scalar : list Qc -> Qc;
  grad : list Qc -> list Qc;
  hess : list Qc -> list (list Qc)
}.

(** [x_scale]: a string such as ['jac'], or an array (a scalar is an array
    of one entry). *)
Inductive x_scale_arg : Type :=
| ScaleStr (s : string)
| ScaleArray (v : list Qc).

(** [hess] as [fmintr] receives it: a callable or a string. *)
Inductive hess_arg : Type :=
| HessCallable (h : list Qc -> list (list Qc))
| HessStr (s : string).

(** The terminal record of a run. *)
Record OptimizeResult : Type := {
  x : list Qc;
  success : bool;
  message : string;
  cost : Qc;
  optimality : Qc;
  nit : nat;
  nfev : nat;
  njev : nat
}.

(** *** Python built-ins used by the drivers *)

(** [d.setdefault(k, v)] *)
Definition setdefault (k : string) (v : Qc) (d : gmap string Qc) : gmap string Qc :=
  match d !! k with
  | Some _ => d
  | None => <[k := v]> d
  end.

(** [d[k]] *)
Definition getitem (d : gmap string Qc) (k : string) : result Qc :=
  match d !! k with
  | Some v => Ok v
  | None => Raise KeyError
  end.

(** [jnp.allclose(a, b)] with the default [rtol = 1e-5], [atol = 1e-8]:
    every entry satisfies [|a - b| <= atol + rtol * |b|]. *)
Definition rtol : Qc := Q2Qc (1 # 100000).
Definition atol : Qc := Q2Qc (1 # 100000000).
Definition allclose (a : list Qc) (b : Qc) : bool :=
  forallb (fun ai => bool_decide (Qcabs (ai - b) ≤ atol + rtol * Qcabs b)) a.

(** [not isinstance(x_scale, str) and jnp.allclose(x_scale, 1)] *)
Definition unit_scale (x_scale : x_scale_arg) : bool :=
  match x_scale with
  | ScaleStr _ => false
  | ScaleArray v => allclose v 1
  end.

(** [sub in s] on strings. *)
Fixpoint contains (sub s : string) : bool :=
  String.prefix sub s ||
  match s with
  | EmptyString => false
  | String _ s' => contains sub s'
  end.

(** [s.replace(old, new)] for a non-empty [old]: occurrences are replaced
    from the left and do not overlap; [skip] counts the characters of a
    replaced occurrence still to pass over. *)
Fixpoint replace_from (old new : string) (skip : nat) (s : string) : string :=
  match s with
  | EmptyString => EmptyString
  | String c s' =>
      match skip with
      | S k => replace_from old new k s'
      | O =>
          if String.prefix old s
          then String.append new (replace_from old new (Nat.pred (String.length old)) s')
          else String c (replace_from old new 0 s')
      end
  end.

Definition replace (old new s : string) : string := replace_from old new 0 s.

(** *** The keyword arguments of the three solvers *)

Module Lsqtr.
Record kwargs : Type := {
  fun_ : list Qc -> list Qc;
  x0 : list Qc;
  jac : list Qc -> list (list Qc);
  args : unit;
  x_scale : x_scale_arg;
  ftol : Qc;
  xtol : Qc;
  gtol : Qc;
  maxiter : Qc;
  verbose : Z;
  callback : option (list Qc -> bool);
  options : gmap string Qc
}.
End Lsqtr.

Module Fmintr.
Record kwargs : Type := {
  fun_ : list Qc -> Qc;
  x0 : list Qc;
  grad : list Qc -> list Qc;
  hess : hess_arg;
  args : unit;
  method : string;
  x_scale : x_scale_arg;
  ftol : Qc;
  xtol : Qc;
  gtol : Qc;
  maxiter : Qc;
  verbose : Z;
  callback : option (list Qc -> bool);
  options : gmap string Qc
}.
End Fmintr.

Module Sgd.
Record kwargs : Type := {
  fun_ : list Qc -> Qc;
  x0 : list Qc;
  grad : list Qc -> list Qc;
  args : unit;
  method : string;
  ftol : Qc;
  xtol : Qc;
  gtol : Qc;
  maxiter : Qc;
  verbose : Z;
  callback : option (list Qc -> bool);
  options : gmap string Qc
}.
End Sgd.

(** *** The registry *)

(** The common signature of the drivers:
    [(objective, constraint, x0, method, x_scale, verbose, stoptol, options)]. *)
Definition driver : Type :=
  ObjectiveFunction -> option ObjectiveFunction -> list Qc -> string ->
  x_scale_arg -> Z -> gmap string Qc -> option (gmap string Qc) ->
  result OptimizeResult.

(** A registry entry: the driver and its capability flags, under the
    keyword names of the decorator. *)
Record optimizer : Type := {
  fun_ : driver;
  scalar : bool;
  equality_constraints : bool;
  inequality_constraints : bool;
  stochastic : bool;
  hessian : bool
}.

(** A decorator argument: one value, or a list with one value per name. *)
Inductive arg (A : Type) : Type :=
| One (a : A)
| Many (l : list A).
Arguments One {A} a.
Arguments Many {A} l.

Definition names_of (name : arg string) : list string :=
  match name with
  | One s => [s]
  | Many l => l
  end.

(** The flag that goes with the name at position [i]: a single flag stands
    for every name. *)
Definition flag_at (f : arg bool) (i : nat) : bool :=
  match f with
  | One b => b
  | Many l => default false (l !! i)
  end.

(** Modelled from the spec: [desc/optimize/optimizer.py], which defines
    [register_optimizer], is missing from the sources.  Section 4.6:
    [register(name_or_names, driver_fn, capability_flags)] adds to the
    process-wide state, one entry per name. *)
Definition register_optimizer (name : arg string)
    (scalar equality_constraints inequality_constraints stochastic hessian : arg bool)
    (func : driver) (optimizers : gmap string optimizer) : gmap string optimizer :=
  foldl (fun reg p =>
           <[snd p := {| fun_ := func;
                         scalar := flag_at scalar (fst p);
                         equality_constraints := flag_at equality_constraints (fst p);
                         inequality_constraints := flag_at inequality_constraints (fst p);
                         stochastic := flag_at stochastic (fst p);
                         hessian := flag_at hessian (fst p) |}]> reg)
        optimizers (imap pair (names_of name)).

(** Modelled from the spec: section 4.6, [resolve(name) -> driver_record]
    fails with [UnknownMethodError] if absent, and validates nothing else. *)
Definition resolve (name : string) (optimizers : gmap string optimizer)
    : result optimizer :=
  match optimizers !! name with
  | Some r => Ok r
  | None => Raise UnknownMethodError
  end.

(** *** The drivers *)

Section Drivers.
(** [desc.optimize.lsqtr], [fmintr] and [sgd] are imported from sibling
    files; the drivers are written against whatever they are. *)
Variable lsqtr : Lsqtr.kwargs -> result OptimizeResult.
Variable fmintr : Fmintr.kwargs -> result OptimizeResult.
Variable sgd : Sgd.kwargs -> result OptimizeResult.

(** The arguments [_optimize_desc_least_squares] evaluates for its call
    of [lsqtr], in the order of the call. *)
Definition least_squares_kwargs (objective : ObjectiveFunction) (x0 : list Qc)
    (x_scale : x_scale_arg) (verbose : Z) (stoptol : gmap string Qc)
    (options : option (gmap string Qc)) : result Lsqtr.kwargs :=
  let options := default ∅ options in
  let options :=
    if unit_scale x_scale
    then setdefault "max_trust_radius" 1
           (setdefault "initial_trust_radius" (Q2Qc (1 # 1000)) options)
    else options in
  ftol ← getitem stoptol "ftol";
  xtol ← getitem stoptol "xtol";
  gtol ← getitem stoptol "gtol";
  maxiter ← getitem stoptol "maxiter";
  Ok {| Lsqtr.fun_ := compute objective;
        Lsqtr.x0 := x0;
        Lsqtr.jac := jac objective;
        Lsqtr.args := tt;
        Lsqtr.x_scale := x_scale;
        Lsqtr.ftol := ftol;
        Lsqtr.xtol := xtol;
        Lsqtr.gtol := gtol;
        Lsqtr.maxiter := maxiter;
        Lsqtr.verbose := verbose;
        Lsqtr.callback := None;
        Lsqtr.options := options |}.

(** Each driver opens with [assert constraint is None]; assertions are
    executed (the interpreter does not run with [-O]). *)
Definition _optimize_desc_least_squares (objective : ObjectiveFunction)
    (constraint : option ObjectiveFunction) (x0 : list Qc) (method : string)
    (x_scale : x_scale_arg) (verbose : Z) (stoptol : gmap string Qc)
    (options : option (gmap string Qc)) : result OptimizeResult :=
  match constraint with
  | Some _ => Raise AssertionError
  | None =>
      kw ← least_squares_kwargs objective x0 x_scale verbose stoptol options;
      lsqtr kw
  end.

(** The arguments [_optimize_desc_fmin_scalar] evaluates for its call of
    [fmintr]. *)
Definition fmin_scalar_kwargs (objective : ObjectiveFunction) (x0 : list Qc)
    (method : string) (x_scale : x_scale_arg) (verbose : Z)
    (stoptol : gmap string Qc) (options : option (gmap string Qc))
    : result Fmintr.kwargs :=
  let options := default ∅ options in
  let hess := if negb (contains "bfgs" method)
              then HessCallable (hess objective)
              else HessStr "bfgs" in
  let options :=
    if unit_scale x_scale
    then setdefault "max_trust_radius" 1
           (setdefault "initial_trust_ratio" (Q2Qc (1 # 1000)) options)
    else options in
  let method' := replace "-bfgs" "" method in
  ftol ← getitem stoptol "ftol";
  xtol ← getitem stoptol "xtol";
  gtol ← getitem stoptol "gtol";
  maxiter ← getitem stoptol "maxiter";
  Ok {| Fmintr.fun_ := compute_scalar objective;
        Fmintr.x0 := x0;
        Fmintr.grad := grad objective;
        Fmintr.hess := hess;
        Fmintr.args := tt;
        Fmintr.method := method';
        Fmintr.x_scale := x_scale;
        Fmintr.ftol := ftol;
        Fmintr.xtol := xtol;
        Fmintr.gtol := gtol;
        Fmintr.maxiter := maxiter;
        Fmintr.verbose := verbose;
        Fmintr.callback := None;
        Fmintr.options := options |}.

Definition _optimize_desc_fmin_scalar (objective : ObjectiveFunction)
    (constraint : option ObjectiveFunction) (x0 : list Qc) (method : string)
    (x_scale : x_scale_arg) (verbose : Z) (stoptol : gmap string Qc)
    (options : option (gmap string Qc)) : result OptimizeResult :=
  match constraint with
  | Some _ => Raise AssertionError
  | None =>
      kw ← fmin_scalar_kwargs objective x0 method x_scale verbose stoptol options;
      fmintr kw
  end.

(** The arguments [_optimize_desc_stochastic] evaluates for its call of
    [sgd]. *)
Definition stochastic_kwargs (objective : ObjectiveFunction) (x0 : list Qc)
    (method : string) (verbose : Z) (stoptol : gmap string Qc)
    (options : option (gmap string Qc)) : result Sgd.kwargs :=
  let options := default ∅ options in
  ftol ← getitem stoptol "ftol";
  xtol ← getitem stoptol "xtol";
  gtol ← getitem stoptol "gtol";
  maxiter ← getitem stoptol "maxiter";
  Ok {| Sgd.fun_ := compute_scalar objective;
        Sgd.x0 := x0;
        Sgd.grad := grad objective;
        Sgd.args := tt;
        Sgd.method := method;
        Sgd.ftol := ftol;
        Sgd.xtol := xtol;
        Sgd.gtol := gtol;
        Sgd.maxiter := maxiter;
        Sgd.verbose := verbose;
        Sgd.callback := None;
        Sgd.options := options |}.

Definition _optimize_desc_stochastic (objective : ObjectiveFunction)
    (constraint : option ObjectiveFunction) (x0 : list Qc) (method : string)
    (x_scale : x_scale_arg) (verbose : Z) (stoptol : gmap string Qc)
    (options : option (gmap string Qc)) : result OptimizeResult :=
  match constraint with
  | Some _ => Raise AssertionError
  | None =>
      kw ← stochastic_kwargs objective x0 method verbose stoptol options;
      sgd kw
  end.

(** Importing the module runs its three decorators, in the order of the
    file, on the registry as it is. *)
Definition register_all (registry : gmap string optimizer) : gmap string optimizer :=
  register_optimizer (One "sgd")
    (One true) (One false) (One false) (One true) (One false)
    _optimize_desc_stochastic
    (register_optimizer (Many ["dogleg"; "subspace"; "dogleg-bfgs"; "subspace-bfgs"])
       (One true) (One false) (One false) (One false)
       (Many [true; true; false; false])
       _optimize_desc_fmin_scalar
       (register_optimizer (One "lsq-exact")
          (One false) (One false) (One false) (One false) (One false)
          _optimize_desc_least_squares
          registry)).

(** The registry that holds this module's methods and no other. *)
Definition optimizers : gmap string optimizer := register_all ∅.

End Drivers.

(** An entry as the three decorators of the module write it: no constraints
    of either kind. *)
Definition entry (func : driver) (scalar stochastic hessian : bool) : optimizer :=
  {| fun_ := func; scalar := scalar; equality_constraints := false;
     inequality_constraints := false; stochastic := stochastic;
     hessian := hessian |}.

(** The names the module registers. *)
Definition registered_names : list string :=
  ["lsq-exact"; "dogleg"; "subspace"; "dogleg-bfgs"; "subspace-bfgs"; "sgd"].

(** *** The solvers behind the drivers *)

(** [desc/optimize/least_squares.py] and [desc/optimize/stochastic.py] are
    missing from the sources; [lsqtr] and [sgd] below follow
    sections 4.3 and 4.5 of the specification. *)
Module Model.

Definition of_nat (n : nat) : Qc := Q2Qc (inject_Z (Z.of_nat n)).

Definition Qcltb (a b : Qc) : bool := bool_decide (a < b).
Definition Qcleb (a b : Qc) : bool := bool_decide (a ≤ b).
Definition Qcmin (a b : Qc) : Qc := if Qcleb a b then a else b.
Definition Qcmax (a b : Qc) : Qc := if Qcleb a b then b else a.

Definition vplus (a b : list Qc) : list Qc := zip_with Qcplus a b.
Definition vminus (a b : list Qc) : list Qc := zip_with Qcminus a b.
Definition vscale (c : Qc) (a : list Qc) : list Qc := map (Qcmult c) a.
Definition sumsq (a : list Qc) : Qc := foldr (fun ai acc => ai * ai + acc) 0 a.
Definition norm_inf (a : list Qc) : Qc := foldr (fun ai acc => Qcmax (Qcabs ai) acc) 0 a.

(** [J^T f], a vector of length [n]. *)
Definition Jt_f (n : nat) (J : list (list Qc)) (f : list Qc) : list Qc :=
  foldr (fun p acc => vplus (vscale (snd p) (fst p)) acc) (replicate n 0) (zip J f).

(** The terminal states of the state machine
    [INIT -> ITERATE -> {CONVERGED | MAX_ITER | STALLED}]. *)
Inductive termination : Type :=
| CONVERGED
| MAX_ITER
| STALLED.

Definition termination_message (t : termination) : string :=
  match t with
  | CONVERGED => "Optimization terminated successfully."
  | MAX_ITER => "Maximum number of iterations or evaluations has been exceeded."
  | STALLED => "No further reduction could be found within the trust region."
  end.

Definition is_converged (t : termination) : bool :=
  match t with
  | CONVERGED => true
  | _ => false
  end.

(** Section 3, StepResult. *)
Record StepResult : Type := {
  p : list Qc;
  predicted_reduction : Qc;
  hits_boundary : bool
}.

(** Section 4.2, the trust-region step solver in least-squares mode, and
    the Euclidean norm it measures steps with: a component of its own,
    which the driver loop only calls. *)
Class StepSolver : Type := {
  norm : list Qc -> Qc;
  solve_step : list (list Qc) -> list Qc -> Qc -> StepResult
}.

(** Section 3, TrustRegionState. *)
Record TrustRegionState : Type := {
  tr_x : list Qc;
  tr_radius : Qc;
  tr_f : list Qc;
  tr_J : list (list Qc);
  tr_iteration : nat;
  tr_nfev : nat;
  tr_njev : nat
}.

(** The number of shrunk-radius retries of one iteration; the
    specification bounds them without giving the bound. *)
Definition max_retries : nat := 10.

Section Lsqtr.
Context `{StepSolver}.
Variable kw : Lsqtr.kwargs.

(** Evaluation budgets and radii reach [lsqtr] through [options]: none
    of them has a keyword argument in the call the driver makes. *)
Definition max_nfev : option Qc := Lsqtr.options kw !! "max_nfev".
Definition max_njev : option Qc := Lsqtr.options kw !! "max_njev".

Definition initial_radius : Qc :=
  match Lsqtr.options kw !! "initial_trust_radius" with
  | Some r => r
  | None => let n0 := norm (Lsqtr.x0 kw) in if Qcleb n0 0 then 1 else n0
  end.

Definition max_radius : option Qc :=
  match Lsqtr.options kw !! "max_trust_radius" with
  | Some r => Some r
  | None => (fun ratio => ratio * initial_radius) <$> Lsqtr.options kw !! "max_trust_ratio"
  end.

Definition reached (budget : option Qc) (count : nat) : bool :=
  match budget with
  | Some b => Qcleb b (of_nat count)
  | None => false
  end.

(** [iteration >= maxiter], [nfev >= max_nfev] or [njev >= max_njev]. *)
Definition budget_exhausted (s : TrustRegionState) : bool :=
  Qcleb (Lsqtr.maxiter kw) (of_nat (tr_iteration s))
  || reached max_nfev (tr_nfev s)
  || reached max_njev (tr_njev s).

(** The trust-radius update driven by [rho = ar / pr]. *)
Definition update_radius (radius rho : Qc) (step : StepResult) : Qc :=
  if Qcltb rho (Q2Qc (1 # 4)) then Q2Qc (1 # 4) * norm (p step)
  else if Qcltb (Q2Qc (3 # 4)) rho && hits_boundary step
       then match max_radius with
            | Some m => Qcmin (2 * radius) m
            | None => 2 * radius
            end
       else radius.

(** One iteration's trials: a step is accepted only if the actual
    reduction is positive, otherwise the trial is repeated with the
    shrunk radius.  [inr] when the retries are used up. *)
Fixpoint trial (retries : nat) (s : TrustRegionState)
    : (TrustRegionState * StepResult * Qc) + TrustRegionState :=
  match retries with
  | O => inr s
  | S retries' =>
      let step := solve_step (tr_J s) (tr_f s) (tr_radius s) in
      let x_new := vplus (tr_x s) (p step) in
      let f_new := Lsqtr.fun_ kw x_new in
      let ar := sumsq (tr_f s) - sumsq f_new in
      let rho := ar / predicted_reduction step in
      let radius := update_radius (tr_radius s) rho step in
      if Qcltb 0 ar
      then inl ({| tr_x := x_new; tr_radius := radius; tr_f := f_new;
                   tr_J := Lsqtr.jac kw x_new;
                   tr_iteration := S (tr_iteration s);
                   tr_nfev := S (tr_nfev s);
                   tr_njev := S (tr_njev s) |}, step, ar)
      else trial retries'
             {| tr_x := tr_x s; tr_radius := radius; tr_f := tr_f s; tr_J := tr_J s;
                tr_iteration := tr_iteration s;
                tr_nfev := S (tr_nfev s);
                tr_njev := tr_njev s |}
  end.

(** The loop, with [fuel] iterations left before [maxiter]. *)
Fixpoint iterate (fuel : nat) (s : TrustRegionState)
    : TrustRegionState * termination :=
  let g := Jt_f (length (tr_x s)) (tr_J s) (tr_f s) in
  if Qcltb (norm_inf g) (Lsqtr.gtol kw) then (s, CONVERGED)
  else if budget_exhausted s then (s, MAX_ITER)
  else
    match fuel with
    | O => (s, MAX_ITER)
    | S fuel' =>
        match trial max_retries s with
        | inr s' => (s', STALLED)
        | inl (s', step, ar) =>
            if Qcltb (norm (p step)) (Lsqtr.xtol kw * norm (tr_x s))
               || Qcltb (Qcabs ar) (Lsqtr.ftol kw * sumsq (tr_f s))
            then (s', CONVERGED)
            else iterate fuel' s'
        end
    end.

Definition init : TrustRegionState :=
  {| tr_x := Lsqtr.x0 kw;
     tr_radius := initial_radius;
     tr_f := Lsqtr.fun_ kw (Lsqtr.x0 kw);
     tr_J := Lsqtr.jac kw (Lsqtr.x0 kw);
     tr_iteration := 0;
     tr_nfev := 1;
     tr_njev := 1 |}.

(** The iterations [maxiter] allows. *)
Definition iterations_allowed : nat := Z.to_nat (Qceiling (Lsqtr.maxiter kw)).

Definition run : TrustRegionState * termination := iterate iterations_allowed init.

Definition make_result (r : TrustRegionState * termination) : OptimizeResult :=
  let '(s, t) := r in
  {| x := tr_x s;
     success := is_converged t;
     message := termination_message t;
     cost := Q2Qc (1 # 2) * sumsq (tr_f s);
     optimality := norm_inf (Jt_f (length (tr_x s)) (tr_J s) (tr_f s));
     nit := tr_iteration s;
     nfev := tr_nfev s;
     njev := tr_njev s |}.

(** Modelled from the spec: [lsqtr], section 4.3. *)
Definition lsqtr : result OptimizeResult := Ok (make_result run).

End Lsqtr.

(** A step solver for problems in one variable, where the subproblem of
    section 4.2 has a closed form: the Gauss-Newton step [-f / J],
    cut back to the trust radius; a zero Jacobian gives the zero step. *)
Definition norm1 (a : list Qc) : Qc := foldr (fun ai acc => Qcabs ai + acc) 0 a.

Definition solve_step_1d (J : list (list Qc)) (f : list Qc) (radius : Qc) : StepResult :=
  match J, f with
  | [[j]], [r] =>
      if Qc_eq_dec j 0
      then {| p := [0]; predicted_reduction := 0; hits_boundary := false |}
      else
        let gn := - r / j in
        let step := Qcmax (- radius) (Qcmin gn radius) in
        {| p := [step];
           predicted_reduction := r * r - (r + j * step) * (r + j * step);
           hits_boundary := Qcleb radius (Qcabs gn) |}
  | _, _ => {| p := []; predicted_reduction := 0; hits_boundary := false |}
  end.

#[global] Instance line_solver : StepSolver :=
  {| norm := norm1; solve_step := solve_step_1d |}.

Section Sgd.
Variable kw : Sgd.kwargs.

(** The learning rate and its decay factor reach [sgd] through
    [options]; the rate of iteration [k] is [learning_rate * decay ^ k],
    constant when [decay] is 1. *)
Definition learning_rate : Qc :=
  default (Q2Qc (1 # 100)) (Sgd.options kw !! "learning_rate").
Definition decay : Qc := default 1 (Sgd.options kw !! "decay").

(** The single loop of section 4.5: [x <- x - eta * g(x)], for a fixed
    number of iterations or until [xtol] or [ftol] is satisfied. *)
Fixpoint sgd_iterate (fuel k : nat) (eta : Qc) (x : list Qc)
    : list Qc * termination * nat :=
  match fuel with
  | O => (x, MAX_ITER, k)
  | S fuel' =>
      let g := Sgd.grad kw x in
      let x_new := vminus x (vscale eta g) in
      let dx := vminus x_new x in
      let df := Qcabs (Sgd.fun_ kw x - Sgd.fun_ kw x_new) in
      if Qcltb (sumsq dx) (Sgd.xtol kw * Sgd.xtol kw * sumsq x)
         || Qcltb df (Sgd.ftol kw * Qcabs (Sgd.fun_ kw x))
      then (x_new, CONVERGED, S k)
      else sgd_iterate fuel' (S k) (eta * decay) x_new
  end.

(** Modelled from the spec: [sgd], section 4.5. *)
Definition sgd : result OptimizeResult :=
  let '(x_final, t, k) :=
    sgd_iterate (Z.to_nat (Qceiling (Sgd.maxiter kw))) 0 learning_rate (Sgd.x0 kw) in
  Ok {| x := x_final;
        success := is_converged t;
        message := termination_message t;
        cost := Sgd.fun_ kw x_final;
        optimality := norm_inf (Sgd.grad kw x_final);
        nit := k;
        nfev := S k;
        njev := S k |}.

End Sgd.

End Model.

(** *** A small problem in one variable *)

Module Sample.

(** Residual [x^2 + 1], scalar objective [(x - 1)^2]. *)
Definition objective : ObjectiveFunction :=
  {| compute := fun v => match v with [a] => [a * a + 1] | _ => [] end;
     jac := fun v => match v with [a] => [[2 * a]] | _ => [] end;
     compute_scalar := fun v => match v with [a] => (a - 1) * (a - 1) | _ => 0 end;
     grad := map (fun a => 2 * (a - 1));
     hess := fun v => [[2]] |}.

(** Stopping tolerances with zero thresholds, [maxiter] iterations and
    the evaluation budgets [max_nfev = max_njev = 1]. *)
Definition stoptol (maxiter : Z) : gmap string Qc :=
  <["ftol" := 0]> (<["xtol" := 0]> (<["gtol" := 0]>
    (<["maxiter" := Q2Qc (inject_Z maxiter)]>
       (<["max_nfev" := 1]> (<["max_njev" := 1]>
          (<["max_ngev" := 1]> (<["max_nhev" := 1]> ∅))))))).

End Sample.

End Optimize.

(** ** More of [desc/objectives/linear_objectives.py] *)

Module LinearObjectivesMore.
Import LinearObjectives.

Section Frames.
Context {T : Type} `{Collaborators T}.

(** The base class [build] assigns none of [target], [_A], [_idx] and
    [_dim_f]. *)
Definition base_build_keeps : Prop :=
  forall (eq : Equilibrium T) (self : Objective T),
    let self' := fst (Objective_build eq self) in
    target self' = target self /\ _A self' = _A self /\
    _idx self' = _idx self /\ _dim_f self' = _dim_f self.

End Frames.

Section Selection.
Context {T : Type}.

(** The positions [idx] in [eq.surface.R_basis.modes] that
    [FixBoundaryR.build] selects for a [modes] argument. *)
Definition FixBoundaryR_idx (eq : Equilibrium T) (sel : modes_arg) : list Z :=
  match sel with
  | ModesTrue => arange (num_modes (R_basis (surface eq)))
  | ModesFalse | ModesNone => []
  | ModesArray ms => snd (fst (intersect1d (modes (R_basis (surface eq))) ms))
  end.

End Selection.

(** *** The equilibrium, further attributes *)

(** A [Profile], as far as the objectives read it: its [params]. *)
Record Profile (T : Type) : Type := { params : list T }.
Arguments params {T} _.

(** The magnetic axis [eq.axis]: the modes of its basis and its
    coefficients [R_n]. *)
Record Axis (T : Type) : Type := {
  axis_R_basis : Basis;
  R_n : list T
}.
Arguments axis_R_basis {T} _.
Arguments R_n {T} _.

(** The equilibrium with the attributes that [FixAxisR], [FixModeR] and
    the profile objectives read besides those above: [eq.axis],
    [eq.R_lmn], [eq.L] and the profiles, [None] for a profile that is not
    assigned. *)
Record EquilibriumMore (T : Type) : Type := {
  equilibrium : Equilibrium T;
  axis : Axis T;
  eq_R_lmn : list T;
  eq_L : nat;
  pressure : option (Profile T);
  iota : option (Profile T);
  current : option (Profile T);
  electron_temperature : option (Profile T);
  electron_density : option (Profile T);
  ion_temperature : option (Profile T);
  atomic_number : option (Profile T)
}.
Arguments equilibrium {T} _.
Arguments axis {T} _.
Arguments eq_R_lmn {T} _.
Arguments eq_L {T} _.
Arguments pressure {T} _.
Arguments iota {T} _.
Arguments current {T} _.
Arguments electron_temperature {T} _.
Arguments electron_density {T} _.
Arguments ion_temperature {T} _.
Arguments atomic_number {T} _.

Section ModeObjectives.
Context {T : Type} `{Scalar T} `{Collaborators T}.

(** **** [FixModeR]

    [build].  The branch for all modes binds [idx] and [modes_idx] but
    does not assign [self._idx]; the branch for specified modes does.
    An instance whose [_modes] is [False] or [None] (which [__init__]
    refuses) reaches the branch for specified modes, where the structured
    view of a one-entry array fails: on [False] with [ValueError] (one
    byte viewed as three), on [None] with [TypeError] (an object
    array). *)
Definition FixModeR_build (eq : EquilibriumMore T) : method T unit :=
  sel ← gets _modes;
  modes_idx ← match sel with
              | ModesTrue => mret (arange (num_modes (eq_R_basis (equilibrium eq))))
              | ModesArray ms =>
                  let '(_, idx, modes_idx) :=
                    intersect1d (modes (eq_R_basis (equilibrium eq))) ms in
                  assign (set_idx idx);;
                  mret modes_idx
              | ModesFalse => raise ValueError
              | ModesNone => raise TypeError
              end;
  assign (set_dim_f (length modes_idx));;
  tgt ← gets target;
  match tgt with
  | None =>
      idx ← gets _idx;
      idx ← lift (getattr idx);
      t ← lift (take (eq_R_lmn eq) idx);
      assign (set_target t)
  | Some t =>
      match sel with
      | ModesTrue | ModesFalse => raise RuntimeError
      | _ => t' ← lift (take t modes_idx); assign (set_target t')
      end
  end;;
  Objective_build (equilibrium eq).

End ModeObjectives.

(** *** [FixAxisR] *)

(** The toroidal mode number [n] of a row [l, m, n]. *)
Definition mode_n (k : mode) : Z := let '(_, _, n) := k in n.

(** [np.argwhere(n == ns)] for a 1-D [ns]: the positions that hold [n]. *)
Definition argwhere_eq (n : Z) (ns : list Z) : list nat :=
  fst <$> filter (fun p => snd p = n) (imap pair ns).

(** [t[js] = v] for a list [js] of positions. *)
Definition set_items {A : Type} (t : list A) (js : list nat) (v : A) : list A :=
  foldl (fun t j => <[j := v]> t) t js.

(** [A[j, i]] for a position inside the shape of [A]. *)
Definition entry {T : Type} (A : matrix T) (j i : nat) : option T :=
  rows A !! j ≫= (fun r => r !! i).

Section AxisObjectives.
Context {T : Type} `{Scalar T} `{Collaborators T}.

(** The entry that the loop of [FixAxisR.build] writes for a basis mode
    with radial number [l]: 1 when [(l // 2) % 2 == 0], else -1. *)
Definition axis_sign (l : Z) : T := if (l / 2) mod 2 =? 0 then one else opp one.

(** The loop [for i, (l, m, n) in enumerate(R_basis.modes)] of
    [FixAxisR.build], from position [i] on. *)
Fixpoint FixAxisR_fill (ns : list Z) (i : nat) (basis_modes : list mode)
    : method T unit :=
  match basis_modes with
  | [] => mret tt
  | (l, m, n) :: rest =>
      (if negb (m =? 0) then mret tt
       else
         let j := argwhere_eq n ns in
         A ← gets _A;
         A ← lift (getattr A);
         assign (set_A (set_entries A j i (axis_sign l))));;
      FixAxisR_fill ns (S i) rest
  end.

(** The loop [for n, Rn in zip(eq.axis.R_basis.modes[:, 2], eq.axis.R_n)]
    that fills the default target: [self.target[j] = Rn] writes into the
    array that [self.target] holds. *)
Fixpoint FixAxisR_targets (ns : list Z) (pairs : list (Z * T)) : method T unit :=
  match pairs with
  | [] => mret tt
  | (n, Rn) :: rest =>
      let j := argwhere_eq n ns in
      t ← gets target;
      match t with
      | Some t => assign (set_target (set_items t j Rn))
      | None => raise TypeError
      end;;
      FixAxisR_targets ns rest
  end.

Definition FixAxisR_build (eq : EquilibriumMore T) : method T unit :=
  let R_basis := eq_R_basis (equilibrium eq) in
  sel ← gets _modes;
  sm ← match sel with
       | ModesFalse | ModesNone => mret ([], None)
       | ModesTrue => mret (modes (axis_R_basis (axis eq)), None)
       | ModesArray ms =>
           let '(_, idx, modes_idx) :=
             intersect1d (modes (axis_R_basis (axis eq))) ms in
           picked ← lift (take (modes (axis_R_basis (axis eq))) idx);
           mret (picked, Some modes_idx)
       end;
  let '(picked, modes_idx) := sm in
  let ns := if (0 <? length picked)%nat then mode_n <$> picked else [] in
  assign (set_A (np_zeros (length ns) (num_modes R_basis)));;
  assign (set_dim_f (length ns));;
  FixAxisR_fill ns 0 (modes R_basis);;
  tgt ← gets target;
  match tgt with
  | None =>
      dim_f ← gets _dim_f;
      dim_f ← lift (getattr dim_f);
      assign (set_target (replicate dim_f zero));;
      FixAxisR_targets ns (zip (mode_n <$> modes (axis_R_basis (axis eq)))
                               (R_n (axis eq)))
  | Some t =>
      match sel with
      | ModesTrue | ModesFalse => raise RuntimeError
      | _ =>
          match modes_idx with
          | None => raise UnboundLocalError
          | Some mi => t' ← lift (take t mi); assign (set_target t')
          end
      end
  end;;
  Objective_build (equilibrium eq).

(** The mode numbers [ns] of the rows that [FixAxisR.build] fixes for a
    [modes] argument. *)
Definition FixAxisR_ns (eq : EquilibriumMore T) (sel : modes_arg) : list Z :=
  match sel with
  | ModesTrue => mode_n <$> modes (axis_R_basis (axis eq))
  | ModesFalse | ModesNone => []
  | ModesArray ms =>
      mode_n <$> fst (fst (intersect1d (modes (axis_R_basis (axis eq))) ms))
  end.

End AxisObjectives.

(** *** The profile objectives *)

(** The [indices] argument of a profile objective. *)
Inductive indices_arg : Type :=
| IndicesTrue
| IndicesFalse
| IndicesNone
| IndicesArray (ix : list Z).

(** An instance of a profile objective: the attributes of an objective
    and the two that [_FixProfile.__init__] stores; [_profile] is [None]
    where Python's is. *)
Record FixProfile (T : Type) : Type := {
  objective : Objective T;
  _profile : option (Profile T);
  _indices : indices_arg
}.
Arguments objective {T} _.
Arguments _profile {T} _.
Arguments _indices {T} _.

Definition set_profile {T} (p : option (Profile T)) (self : FixProfile T)
    : FixProfile T :=
  {| objective := objective self; _profile := p; _indices := _indices self |}.

(** A method body of a profile objective. *)
Definition pmethod (T A : Type) : Type := FixProfile T -> FixProfile T * result A.

#[global] Instance pmethod_ret {T} : MRet (pmethod T) := fun A a self => (self, Ok a).
#[global] Instance pmethod_bind {T} : MBind (pmethod T) := fun A B k m self =>
  match m self with
  | (self', Ok a) => k a self'
  | (self', Raise e) => (self', Raise e)
  end.

Definition plift {T A} (r : result A) : pmethod T A := fun self => (self, r).
Definition praise {T A} (e : exn) : pmethod T A := plift (Raise e).
Definition pgets {T A} (f : FixProfile T -> A) : pmethod T A :=
  fun self => (self, Ok (f self)).
Definition passign {T} (f : FixProfile T -> FixProfile T) : pmethod T unit :=
  fun self => (f self, Ok tt).

(** A method body that uses the attributes of an objective only, run on a
    profile objective: [_profile] and [_indices] stay as they are. *)
Definition on_objective {T A} (m : method T A) : pmethod T A := fun self =>
  let '(o, r) := m (objective self) in
  ({| objective := o; _profile := _profile self; _indices := _indices self |}, r).

Section ProfileObjectives.
Context {T : Type} `{Scalar T} `{Collaborators T}.

(** **** [_FixProfile.build]

    [self._profile.params] on a [_profile] that is [None] raises
    [AttributeError].  The base class [build], which runs last, is an
    [Objective_build]: it works on the attributes of an objective and
    leaves [_profile] and [_indices] as they are. *)
Definition _FixProfile_build (eq : EquilibriumMore T) (profile : option (Profile T))
    : pmethod T unit :=
  own ← pgets _profile;
  match own with
  | None => passign (set_profile profile)
  | Some p =>
      if negb (Nat.eqb (length (params p)) (eq_L eq + 1))
      then passign (set_profile profile)
      else mret tt
  end;;
  ind ← pgets _indices;
  match ind with
  | IndicesFalse | IndicesNone => on_objective (assign (set_idx []))
  | IndicesTrue =>
      p ← pgets _profile;
      p ← plift (getattr p);
      on_objective (assign (set_idx (arange (length (params p)))))
  | IndicesArray ix => on_objective (assign (set_idx ix))
  end;;
  idx ← on_objective (gets _idx);
  idx ← plift (getattr idx);
  on_objective (assign (set_dim_f (length idx)));;
  tgt ← on_objective (gets target);
  match tgt with
  | None =>
      p ← pgets _profile;
      p ← plift (getattr p);
      t ← plift (take (params p) idx);
      on_objective (assign (set_target t))
  | Some _ => mret tt
  end;;
  on_objective (Objective_build (equilibrium eq)).

(** [scales[key]] assigned to [self._normalization] when [self._normalize]. *)
Definition set_scale (eq : EquilibriumMore T) (key : string) : pmethod T unit :=
  nrm ← on_objective (gets _normalize);
  if nrm : bool then
    match compute_scaling_factors (equilibrium eq) !! key with
    | Some a => on_objective (assign (set_normalization a))
    | None => praise KeyError
    end
  else mret tt.

(** **** The [build] methods of the seven profile objectives *)

Definition FixPressure_build (eq : EquilibriumMore T) : pmethod T unit :=
  match pressure eq with
  | None => praise RuntimeError
  | Some profile => set_scale eq "p";; _FixProfile_build eq (Some profile)
  end.

Definition FixIota_build (eq : EquilibriumMore T) : pmethod T unit :=
  match iota eq with
  | None => praise RuntimeError
  | Some profile => _FixProfile_build eq (Some profile)
  end.

Definition FixCurrent_build (eq : EquilibriumMore T) : pmethod T unit :=
  match current eq with
  | None => praise RuntimeError
  | Some profile => set_scale eq "I";; _FixProfile_build eq (Some profile)
  end.

Definition FixElectronTemperature_build (eq : EquilibriumMore T) : pmethod T unit :=
  match electron_temperature eq with
  | None => praise RuntimeError
  | Some profile => set_scale eq "T";; _FixProfile_build eq (Some profile)
  end.

Definition FixElectronDensity_build (eq : EquilibriumMore T) : pmethod T unit :=
  match electron_density eq with
  | None => praise RuntimeError
  | Some profile => set_scale eq "n";; _FixProfile_build eq (Some profile)
  end.

Definition FixIonTemperature_build (eq : EquilibriumMore T) : pmethod T unit :=
  match ion_temperature eq with
  | None => praise RuntimeError
  | Some profile => set_scale eq "T";; _FixProfile_build eq (Some profile)
  end.

Definition FixAtomicNumber_build (eq : EquilibriumMore T) : pmethod T unit :=
  match atomic_number eq with
  | None => praise RuntimeError
  | Some profile => _FixProfile_build eq (Some profile)
  end.

(** The seven profile objectives: the class, its [build] and the
    attribute of the equilibrium that it fixes. *)
Definition profile_objectives
    : list (objective_class * (EquilibriumMore T -> pmethod T unit) *
            (EquilibriumMore T -> option (Profile T))) :=
  [ (FixPressure, FixPressure_build, pressure);
    (FixIota, FixIota_build, iota);
    (FixCurrent, FixCurrent_build, current);
    (FixElectronTemperature, FixElectronTemperature_build, electron_temperature);
    (FixElectronDensity, FixElectronDensity_build, electron_density);
    (FixIonTemperature, FixIonTemperature_build, ion_temperature);
    (FixAtomicNumber, FixAtomicNumber_build, atomic_number) ].

(** The profile that [_FixProfile.build] works with: the one given to
    [__init__] when it has [eq.L + 1] parameters, else the one passed to
    [build]. *)
Definition profile_in_use (eq : EquilibriumMore T) (profile : option (Profile T))
    (self : FixProfile T) : option (Profile T) :=
  match _profile self with
  | Some p => if Nat.eqb (length (params p)) (eq_L eq + 1) then Some p else profile
  | None => profile
  end.

End ProfileObjectives.

(** *** [FixBoundaryR] with [fixed_boundary] *)

(** The rows [modes] that [FixBoundaryR.build] keeps for a [modes]
    argument: the modes of the surface basis that are fixed, in its
    order. *)
Definition FixBoundaryR_modes {T : Type} (eq : Equilibrium T) (sel : modes_arg)
    : list mode :=
  match sel with
  | ModesTrue => modes (R_basis (surface eq))
  | ModesFalse | ModesNone => []
  | ModesArray ms => fst (fst (intersect1d (modes (R_basis (surface eq))) ms))
  end.

(** Whether row [j] of [modes] has the poloidal and toroidal numbers
    [m], [n]. *)
Definition same_mn (picked : list mode) (j : nat) (m n : Z) : bool :=
  match picked !! j with
  | Some (_, m', n') => bool_decide (m' = m) && bool_decide (n' = n)
  | None => false
  end.

(** Further sample objects. *)
Module Cases.

(** The sample equilibrium with a Poincare section as boundary. *)
Definition eq_poincare : Equilibrium Z :=
  {| surface := surface Sample.eq;
     eq_R_basis := Sample.basis;
     L_basis := Sample.basis;
     bdry_mode := "poincare";
     Psi := 1 |}.

(** A freshly constructed objective for two chosen modes, given out of
    order, with their targets. *)
Definition picked : Objective Z :=
  {| _A := None; _idx := None; _dim_f := None; target := Some [7; 8];
     _normalization := None; _modes := ModesArray [(2, 0, 0); (0, 0, 0)];
     _fixed_boundary := false; _surface_label := None; _normalize := false |}.

(** A freshly constructed objective with [modes=None] and a [target]. *)
Definition unset : Objective Z :=
  {| _A := None; _idx := None; _dim_f := None; target := Some [5];
     _normalization := None; _modes := ModesNone; _fixed_boundary := false;
     _surface_label := None; _normalize := false |}.

(** An equilibrium with an axis of two modes, a pressure profile of
    [eq.L + 1 = 2] parameters and no other profile. *)
Definition eq_more : EquilibriumMore Z :=
  {| equilibrium := Sample.eq;
     axis := {| axis_R_basis := {| modes := [(0, 0, 0); (0, 0, 1)] |};
                R_n := [10; 2] |};
     eq_R_lmn := [10; 1; 0];
     eq_L := 1;
     pressure := Some {| params := [3; 4] |};
     iota := None;
     current := None;
     electron_temperature := None;
     electron_density := None;
     ion_temperature := None;
     atomic_number := None |}.

(** A freshly constructed profile objective with the defaults. *)
Definition profile_plain : FixProfile Z :=
  {| objective := Sample.plain; _profile := None; _indices := IndicesTrue |}.

(** A freshly constructed profile objective with a [target] of three
    entries for the one index 0. *)
Definition profile_fresh : FixProfile Z :=
  {| objective := Sample.fresh; _profile := None; _indices := IndicesArray [0] |}.

End Cases.

End LinearObjectivesMore.

(** ** Conditions on the arguments of the drivers *)

Module OptimizeConditions.
Import Optimize.
Local Open Scope Qc_scope.

(** The keys of [stoptol] that the drivers subscript. *)
Definition tolerance_keys : list string := ["ftol"; "xtol"; "gtol"; "maxiter"].

Definition has_tolerances (stoptol : gmap string Qc) : bool :=
  forallb (fun k => bool_decide (is_Some (stoptol !! k))) tolerance_keys.

(** The distance from 1 that [jnp.allclose(x_scale, 1)] accepts:
    [atol + rtol * 1 = 1.001e-5]. *)
Definition unit_tolerance : Qc := Q2Qc (1001 # 100000000).

End OptimizeConditions.

(** * Properties *)

(** ** The backend [sign] *)

Module BackendFacts.
Import Backend.
Local Open Scope Qc_scope.

Lemma np_sign_cases (x : Qc) :
  (x < 0 -> np_sign x = - 1) /\ (0 < x -> np_sign x = 1).
Proof.
  unfold np_sign. destruct (x ?= 0) eqn:C.
  - apply Qceq_alt in C. subst x.
    split; intros Hx; exfalso; now apply (Qclt_not_eq _ _ Hx).
  - split; [ reflexivity | ].
    apply Qclt_alt in C. intros Hx. exfalso.
    apply (Qclt_not_eq x x); [ | reflexivity ]. now apply Qclt_trans with 0.
  - split; [ | reflexivity ].
    apply Qcgt_alt in C. intros Hx. exfalso.
    apply (Qclt_not_eq x x); [ | reflexivity ]. now apply Qclt_trans with 0.
Qed.

(** C10: [sign] returns +1 at 0 and on every positive input, -1 on every
    negative input, and never 0. *)
Theorem sign_plus_minus_one (x : Qc) :
  (x = 0 -> sign x = 1) /\
  (0 < x -> sign x = 1) /\
  (x < 0 -> sign x = - 1) /\
  sign x <> 0.
Proof.
  unfold sign.
  destruct (Qc_eq_dec x 0) as [E | N].
  - subst x. repeat split; try reflexivity; discriminate.
  - destruct (np_sign_cases x) as [Hneg Hpos].
    split; [ intros E; contradiction | ].
    split; [ exact Hpos | ].
    split; [ exact Hneg | ].
    unfold np_sign. destruct (x ?= 0) eqn:C.
    + apply Qceq_alt in C. contradiction.
    + discriminate.
    + discriminate.
Qed.

Lemma sign_plus_minus_one_witness :
  sign (Q2Qc 4) = 1 /\ sign 0 = 1 /\ sign (Q2Qc (-103 # 10)) = - 1.
Proof.
  split; [ | split ].
  - apply (proj1 (proj2 (sign_plus_minus_one (Q2Qc 4)))). reflexivity.
  - apply (proj1 (sign_plus_minus_one 0)). reflexivity.
  - apply (proj1 (proj2 (proj2 (sign_plus_minus_one (Q2Qc (-103 # 10)))))). reflexivity.
Defined.

End BackendFacts.

(** ** The linear objectives *)

Module LinearObjectivesFacts.
Import LinearObjectives.

(** Run a method body on an instance. *)
Ltac run_method :=
  unfold mbind, mret, method_bind, method_ret, gets, lift, raise, assign; cbn.

Lemma bind_Ok {A B : Type} (a : A) (k : A -> result B) : (Ok a ≫= k) = k a.
Proof. reflexivity. Qed.

Lemma bind_Raise {A B : Type} (e : exn) (k : A -> result B) : (Raise e ≫= k) = Raise e.
Proof. reflexivity. Qed.

Lemma mapM_cons {A B : Type} (f : A -> result B) (a : A) (l : list A) :
  mapM f (a :: l) = (b ← f a; bs ← mapM f l; Ok (b :: bs)).
Proof. reflexivity. Qed.

Lemma norm_index_lt (n : nat) (i : Z) (k : nat) :
  norm_index n i = Ok k -> (k < n)%nat.
Proof.
  unfold norm_index.
  destruct ((0 <=? i) && (i <? Z.of_nat n)) eqn:E1.
  - intros [= <-]. apply andb_true_iff in E1 as [H1 H2]. lia.
  - destruct ((- Z.of_nat n <=? i) && (i <? 0)) eqn:E2; [ | discriminate ].
    intros [= <-]. apply andb_true_iff in E2 as [H1 H2]. lia.
Qed.

Lemma norm_index_error (n : nat) (i : Z) (e : exn) :
  norm_index n i = Raise e -> e = IndexError.
Proof.
  unfold norm_index.
  destruct ((0 <=? i) && (i <? Z.of_nat n)); [ discriminate | ].
  destruct ((- Z.of_nat n <=? i) && (i <? 0)); [ discriminate | ].
  now intros [= <-].
Qed.

Lemma norm_index_of_nat (n k : nat) :
  (k < n)%nat -> norm_index n (Z.of_nat k) = Ok k.
Proof.
  intros Hk. unfold norm_index.
  replace ((0 <=? Z.of_nat k) && (Z.of_nat k <? Z.of_nat n)) with true.
  - now rewrite Nat2Z.id.
  - symmetry. apply andb_true_iff. split; lia.
Qed.

Lemma item_error {A : Type} (x : list A) (i : Z) (e : exn) :
  item x i = Raise e -> e = IndexError.
Proof.
  unfold item. destruct (norm_index (length x) i) as [k | e'] eqn:E.
  - rewrite bind_Ok. destruct (x !! k); [ discriminate | now intros [= <-] ].
  - rewrite bind_Raise. intros [= <-]. eapply norm_index_error, E.
Qed.

Lemma take_error {A : Type} (x : list A) (idx : list Z) (e : exn) :
  take x idx = Raise e -> e = IndexError.
Proof.
  unfold take. induction idx as [ | i idx IH ]; [ discriminate | ].
  rewrite mapM_cons.
  destruct (item x i) as [v | e'] eqn:E.
  - rewrite bind_Ok. destruct (mapM (item x) idx) as [vs | e''].
    + discriminate.
    + rewrite bind_Raise. intros [= <-]. now apply IH.
  - rewrite bind_Raise. intros [= <-]. eapply item_error, E.
Qed.

Section Linear.
Context {T : Type} {ST : Scalar T}.
Hypothesis Tring : ring_theory zero one add mul sub opp (@eq T).
Add Ring Tr : Tring.

Lemma length_lincomb (a b : T) (x y : list T) :
  length x = length y -> length (lincomb a x b y) = length x.
Proof.
  revert y. induction x as [ | u x IH ]; intros [ | v y ] Hlen; simpl in *; try discriminate.
  - reflexivity.
  - f_equal. apply IH. now injection Hlen.
Qed.

Lemma lookup_lincomb (a b : T) (x y : list T) (k : nat) :
  lincomb a x b y !! k =
  match x !! k, y !! k with
  | Some u, Some v => Some (add (mul a u) (mul b v))
  | _, _ => None
  end.
Proof.
  revert y k. induction x as [ | u x IH ]; intros [ | v y ] [ | k ]; simpl; try reflexivity.
  - now destruct (x !! k).
  - apply IH.
Qed.

Lemma dotv_lincomb (a b : T) (r x y : list T) :
  length x = length y ->
  dotv r (lincomb a x b y) = add (mul a (dotv r x)) (mul b (dotv r y)).
Proof.
  revert x y. induction r as [ | c r IH ]; intros [ | u x ] [ | v y ] Hlen;
    simpl in *; try discriminate; try ring.
  unfold lincomb in IH. rewrite IH by now injection Hlen. ring.
Qed.

Lemma dot_lincomb (a b : T) (A : matrix T) (x y : list T) :
  length x = length y ->
  dot A (lincomb a x b y) =
  (fx ← dot A x; fy ← dot A y; Ok (lincomb a fx b fy)).
Proof.
  intros Hlen. unfold dot. rewrite length_lincomb by exact Hlen. rewrite <- Hlen.
  destruct (Nat.eqb (ncols A) (length x)); [ | reflexivity ].
  rewrite !bind_Ok. f_equal.
  induction (rows A) as [ | r rs IH ]; [ reflexivity | ].
  simpl. rewrite dotv_lincomb by exact Hlen.
  unfold lincomb, vadd, scale in IH |- *. simpl. now rewrite IH.
Qed.

Lemma item_lincomb (a b : T) (x y : list T) (i : Z) :
  length x = length y ->
  item (lincomb a x b y) i =
  (u ← item x i; v ← item y i; Ok (add (mul a u) (mul b v))).
Proof.
  intros Hlen. unfold item. rewrite length_lincomb by exact Hlen. rewrite <- Hlen.
  destruct (norm_index (length x) i) as [k | e]; [ | reflexivity ].
  rewrite !bind_Ok, lookup_lincomb.
  destruct (x !! k) as [u | ] eqn:Ex, (y !! k) as [v | ] eqn:Ey; try reflexivity.
Qed.

Lemma take_lincomb (a b : T) (x y : list T) (idx : list Z) :
  length x = length y ->
  take (lincomb a x b y) idx =
  (fx ← take x idx; fy ← take y idx; Ok (lincomb a fx b fy)).
Proof.
  intros Hlen. unfold take.
  induction idx as [ | i idx IH ]; [ reflexivity | ].
  rewrite !mapM_cons, IH, item_lincomb by exact Hlen.
  destruct (item x i) as [u | e1] eqn:E1;
    destruct (item y i) as [v | e2] eqn:E2;
    destruct (mapM (item x) idx) as [us | e3] eqn:E3;
    destruct (mapM (item y) idx) as [vs | e4] eqn:E4;
    rewrite ?bind_Ok, ?bind_Raise; try reflexivity;
    repeat match goal with
           | E : item _ _ = Raise _ |- _ => apply item_error in E; subst
           | E : mapM (item ?z) ?l = Raise _ |- _ =>
               apply (take_error z l) in E; subst
           end; reflexivity.
Qed.

(** A row of the identity picks one entry. *)
Lemma dotv_eye_from (x : list T) (s k : nat) :
  dotv (map (fun j => if Nat.eqb j k then one else zero) (seq s (length x))) x =
  if Nat.leb s k then default zero (x !! (k - s)%nat) else zero.
Proof.
  revert s. induction x as [ | v x IH ]; intros s.
  - simpl. now destruct (Nat.leb s k).
  - cbn [length seq map dotv]. rewrite IH.
    destruct (Nat.eqb_spec s k) as [-> | Hne].
    + rewrite Nat.leb_refl, Nat.sub_diag.
      replace (Nat.leb (S k) k) with false by (symmetry; apply Nat.leb_gt; lia).
      simpl. ring.
    + destruct (Nat.leb_spec s k) as [Hle | Hgt].
      * replace (Nat.leb (S s) k) with true by (symmetry; apply Nat.leb_le; lia).
        replace (k - s)%nat with (S (k - S s)) by lia. simpl. ring.
      * replace (Nat.leb (S s) k) with false by (symmetry; apply Nat.leb_gt; lia).
        ring.
Qed.

Lemma dotv_eye_row (x : list T) (k : nat) (v : T) :
  x !! k = Some v -> dotv (eye_row (length x) k) x = v.
Proof.
  intros Hk. unfold eye_row. rewrite dotv_eye_from. simpl.
  now rewrite Nat.sub_0_r, Hk.
Qed.

Lemma item_eye (x : list T) (i : Z) :
  item x i = (k ← norm_index (length x) i; Ok (dotv (eye_row (length x) k) x)).
Proof.
  unfold item. destruct (norm_index (length x) i) as [k | e] eqn:E; [ | reflexivity ].
  rewrite !bind_Ok. apply norm_index_lt in E.
  destruct (x !! k) as [v | ] eqn:Ek.
  - now rewrite (dotv_eye_row x k v Ek).
  - apply lookup_ge_None in Ek. lia.
Qed.

(** [x[idx] = np.eye(len(x))[idx, :] @ x], errors included. *)
Lemma take_eye (x : list T) (idx : list Z) :
  take x idx = (A ← eye_take (length x) idx; dot A x).
Proof.
  unfold take, eye_take.
  assert (Hrows : mapM (item x) idx =
                  (rs ← mapM (fun i => k ← norm_index (length x) i;
                                       Ok (eye_row (length x) k)) idx;
                   Ok (map (fun r => dotv r x) rs))).
  { induction idx as [ | i idx IH ]; [ reflexivity | ].
    rewrite !mapM_cons, IH, item_eye. clear IH.
    destruct (norm_index (length x) i) as [k | e]; [ | reflexivity ].
    rewrite !bind_Ok.
    destruct (mapM _ idx) as [rs | e]; reflexivity. }
  rewrite Hrows. clear Hrows.
  destruct (mapM _ idx) as [rs | e]; [ | reflexivity ].
  rewrite !bind_Ok. unfold dot. simpl. now rewrite Nat.eqb_refl.
Qed.

Lemma take_arange_app (pre x : list T) :
  take (pre ++ x) (Z.of_nat <$> seq (length pre) (length x)) = Ok x.
Proof.
  revert pre. induction x as [ | v x IH ]; intros pre; [ reflexivity | ].
  unfold take in *. cbn [length seq fmap list_fmap]. rewrite mapM_cons.
  assert (Hv : item (pre ++ v :: x) (Z.of_nat (length pre)) = Ok v).
  { unfold item.
    rewrite norm_index_of_nat by (rewrite length_app; simpl; lia).
    rewrite bind_Ok, lookup_app_r, Nat.sub_diag by lia. reflexivity. }
  rewrite Hv, bind_Ok.
  specialize (IH (pre ++ [v])). rewrite <- app_assoc in IH. cbn [app] in IH.
  rewrite length_app in IH. cbn [length] in IH.
  replace (length pre + 1)%nat with (S (length pre)) in IH by lia.
  now rewrite IH.
Qed.

Lemma take_arange (x : list T) : take x (arange (length x)) = Ok x.
Proof. apply (take_arange_app [] x). Qed.

(** The two bodies of [compute] leave the instance as it was. *)
Lemma dot_A_run (x : list T) (self : Objective T) :
  dot_A x self = (self, A ← getattr (_A self); dot A x).
Proof.
  unfold dot_A. run_method.
  destruct (_A self) as [A | ]; [ | reflexivity ].
  cbn. now destruct (dot A x).
Qed.

Lemma take_idx_run (x : list T) (self : Objective T) :
  take_idx x self = (self, idx ← getattr (_idx self); take x idx).
Proof.
  unfold take_idx. run_method.
  destruct (_idx self) as [idx | ]; [ | reflexivity ].
  cbn. now destruct (take x idx).
Qed.

Lemma FixBoundaryR_compute_run (x : list T) (self : Objective T) :
  FixBoundaryR_compute [x] ∅ self = dot_A x self.
Proof.
  rewrite dot_A_run. unfold FixBoundaryR_compute. run_method.
  rewrite lookup_empty. cbn.
  destruct (_A self) as [A | ]; [ | reflexivity ].
  cbn. now destruct (dot A x).
Qed.

Lemma FixBoundaryZ_compute_run (x : list T) (self : Objective T) :
  FixBoundaryZ_compute [x] ∅ self = dot_A x self.
Proof.
  rewrite dot_A_run. unfold FixBoundaryZ_compute. run_method.
  rewrite lookup_empty. cbn.
  destruct (_A self) as [A | ]; [ | reflexivity ].
  cbn. now destruct (dot A x).
Qed.

(** Every [compute] is one of three maps. *)
Lemma compute_run (cls : objective_class) (x : list T) (self : Objective T) :
  compute cls x self =
  (self,
   match cls with
   | FixBoundaryR | FixBoundaryZ | FixLambdaGauge | FixAxisR | FixAxisZ
   | FixSumModesR | FixSumModesZ => A ← getattr (_A self); dot A x
   | FixPsi => Ok x
   | _ => idx ← getattr (_idx self); take x idx
   end).
Proof.
  destruct cls; cbn [compute];
    rewrite ?FixBoundaryR_compute_run, ?FixBoundaryZ_compute_run;
    try apply dot_A_run; try apply take_idx_run; reflexivity.
Qed.

(** C1: for every class of the module, [compute] leaves the instance as
    it was (so the matrix is the same at the next call), it is
    [x |-> A @ x] for the matrix [A = matrix_of cls self (len x)], which
    does not depend on the entries of [x], and
    [compute(a*x + b*y) = a*compute(x) + b*compute(y)]. *)
Theorem compute_is_linear (cls : objective_class) (self : Objective T)
    (a b : T) (x y : list T) :
  length x = length y ->
  fst (compute cls x self) = self /\
  snd (compute cls x self) = (A ← matrix_of cls self (length x); dot A x) /\
  snd (compute cls (lincomb a x b y) self) =
    (fx ← snd (compute cls x self);
     fy ← snd (compute cls y self);
     Ok (lincomb a fx b fy)).
Proof.
  intros Hlen. rewrite !compute_run. cbn [fst snd].
  split; [ reflexivity | ]. split.
  - destruct cls; cbn [matrix_of]; try reflexivity;
      try (destruct (_idx self) as [idx | ]; [ apply take_eye | reflexivity ]).
    now rewrite <- take_eye, take_arange.
  - destruct cls;
      try (destruct (_A self) as [A | ]; [ now apply dot_lincomb | reflexivity ]);
      try (destruct (_idx self) as [idx | ]; [ now apply take_lincomb | reflexivity ]).
    reflexivity.
Qed.

End Linear.

Lemma compute_is_linear_witness :
  length [1; 1; 2] = length [2; 3; 4] /\
  snd (compute FixModeR (lincomb 2 [1; 1; 2] 3 [2; 3; 4]) Sample.built) =
    Ok [8; 16] /\
  snd (compute FixAxisR (lincomb 2 [1; 1; 2] 3 [2; 3; 4]) Sample.built) =
    Ok [8; 102].
Proof.
  split; [ reflexivity | ]. split.
  - apply (proj2 (proj2 (@compute_is_linear Z Z_Scalar InitialRing.Zth FixModeR Sample.built
                           2 3 [1; 1; 2] [2; 3; 4] eq_refl))).
  - apply (proj2 (proj2 (@compute_is_linear Z Z_Scalar InitialRing.Zth FixAxisR Sample.built
                           2 3 [1; 1; 2] [2; 3; 4] eq_refl))).
Defined.

(** [build] on the sample equilibrium. *)
Example intersect1d_sample :
  intersect1d [(0, 0, 0); (1, 1, 0); (2, 0, 0)]
              [(2, 0, 0); (0, 0, 0); (5, 5, 5); (2, 0, 0)] =
  ([(0, 0, 0); (2, 0, 0)], [0; 2], [1; 0]).
Proof. reflexivity. Qed.

Example FixBoundaryR_build_plain :
  FixBoundaryR_build Sample.eq Sample.plain =
  (set_target [10; 1; 0]
     (set_A {| ncols := 3; rows := [[1; 0; 0]; [0; 1; 0]; [0; 0; 1]] |}
        (set_dim_f 3 Sample.plain)),
   Ok tt).
Proof. reflexivity. Qed.

Example FixBoundaryR_build_chosen :
  FixBoundaryR_build Sample.eq Sample.chosen =
  (set_A {| ncols := 3; rows := [[1; 0; 1]; [1; 0; 1]] |}
     (set_target [8; 7] (set_dim_f 2 Sample.chosen)),
   Ok tt).
Proof. reflexivity. Qed.

Example FixPsi_build_plain :
  FixPsi_build Sample.eq Sample.plain =
  (set_target [1] (set_dim_f 1 Sample.plain), Ok tt).
Proof. reflexivity. Qed.

Section Triples.
Context {T : Type}.
Implicit Types P : Objective T -> Prop.

Lemma triple_ret {A} P (a : A) (Q : A -> Objective T -> Prop) :
  (forall self, P self -> Q a self) -> triple P (mret a) Q.
Proof. intros HQ self self' a' HP [= <- <-]. now apply HQ. Qed.

Lemma triple_bind {A B} P (m : method T A) (k : A -> method T B)
    (Q : A -> Objective T -> Prop) (R : B -> Objective T -> Prop) :
  triple P m Q -> (forall a, triple (Q a) (k a) R) -> triple P (m ≫= k) R.
Proof.
  intros Hm Hk self self' b HP. unfold mbind, method_bind.
  destruct (m self) as [s1 [a | e]] eqn:E; [ | discriminate ].
  intros Hrun. eapply Hk; [ | exact Hrun ]. eapply Hm; [ exact HP | exact E ].
Qed.

Lemma triple_gets {A} P (f : Objective T -> A) (Q : A -> Objective T -> Prop) :
  (forall self, P self -> Q (f self) self) -> triple P (gets f) Q.
Proof. intros HQ self self' a HP [= <- <-]. now apply HQ. Qed.

Lemma triple_assign P (f : Objective T -> Objective T) (Q : unit -> Objective T -> Prop) :
  (forall self, P self -> Q tt (f self)) -> triple P (assign f) Q.
Proof. intros HQ self self' [] HP [= <-]. now apply HQ. Qed.

Lemma triple_lift {A} P (r : result A) (Q : A -> Objective T -> Prop) :
  (forall self a, P self -> r = Ok a -> Q a self) -> triple P (lift r) Q.
Proof. intros HQ self self' a HP [= <- ->]. now apply HQ. Qed.

Lemma triple_raise {A} P (e : exn) (Q : A -> Objective T -> Prop) :
  triple P (raise e) Q.
Proof. intros self self' a HP. discriminate. Qed.

Lemma triple_true {A} P (m : method T A) : triple P m (fun _ _ => True).
Proof. now intros self self' a _ _. Qed.

End Triples.

Section Builds.
Context {T : Type} `{Scalar T} `{Collaborators T}.

Lemma length_arange (n : nat) : length (arange n) = n.
Proof. unfold arange. now rewrite length_fmap, length_seq. Qed.

(** C8: when [FixThetaSFL.build] completes, [target] is the zero vector
    with one entry per mode of [eq.L_basis], whatever [target] was
    before. *)
Theorem FixThetaSFL_build_target (eq : Equilibrium T) (self self' : Objective T) :
  base_build_frame ->
  FixThetaSFL_build eq self = (self', Ok tt) ->
  target self' = Some (replicate (num_modes (L_basis eq)) zero).
Proof.
  intros Hframe. unfold FixThetaSFL_build. run_method.
  rewrite length_arange.
  match goal with
  | |- context [Objective_build eq ?s] =>
      destruct (Hframe eq s) as (Ht & _ & _);
      destruct (Objective_build eq s) as [s' r] eqn:E
  end.
  cbn in Ht. destruct r; intros [= <- ]. exact Ht.
Qed.

(** After [FixThetaSFL.build], [compute] is the identity on arrays with one
    entry per mode of [eq.L_basis]. *)
Lemma FixThetaSFL_build_idx (eq : Equilibrium T) (self self' : Objective T) :
  base_build_frame ->
  FixThetaSFL_build eq self = (self', Ok tt) ->
  _idx self' = Some (arange (num_modes (L_basis eq))).
Proof.
  intros Hframe. unfold FixThetaSFL_build. run_method.
  match goal with
  | |- context [Objective_build eq ?s] =>
      destruct (Hframe eq s) as (_ & _ & Hi);
      destruct (Objective_build eq s) as [s' r] eqn:E
  end.
  cbn in Hi. destruct r; intros [= <- ]. exact Hi.
Qed.

Lemma has_A_frame (self self' : Objective T) :
  _A self' = _A self -> has_A self -> has_A self'.
Proof. intros HA (A & HsA & Hwf). exists A. split; [ congruence | exact Hwf ]. Qed.

Lemma has_A_set_A (A : matrix T) (self : Objective T) :
  Forall (fun r => length r = ncols A) (rows A) -> has_A (set_A A self).
Proof. intros Hwf. exists A. split; [ reflexivity | exact Hwf ]. Qed.

Lemma np_zeros_rows (m n : nat) :
  Forall (fun r : list T => length r = n) (rows (np_zeros m n)).
Proof. cbn. apply Forall_replicate. apply length_replicate. Qed.

Lemma eye_take_rows (n : nat) (idx : list Z) (A : matrix T) :
  eye_take n idx = Ok A -> Forall (fun r => length r = ncols A) (rows A).
Proof.
  unfold eye_take.
  destruct (mapM _ idx) as [rs | e] eqn:E; [ | discriminate ].
  intros [= <-]. cbn. revert rs E.
  induction idx as [ | i idx IH ]; intros rs.
  - intros [= <-]. constructor.
  - rewrite mapM_cons.
    destruct (norm_index n i) as [k | e]; [ | discriminate ]. rewrite !bind_Ok.
    destruct (mapM _ idx) as [rs' | e]; [ | discriminate ]. rewrite bind_Ok.
    intros [= <-]. constructor; [ | now apply IH ].
    unfold eye_row. now rewrite length_map, length_seq.
Qed.

Lemma set_entries_rows (A : matrix T) (js : list nat) (i : nat) (v : T) :
  Forall (fun r => length r = ncols A) (rows A) ->
  Forall (fun r => length r = ncols A) (rows (set_entries A js i v)).
Proof.
  cbn. generalize (rows A). induction js as [ | j js IH ]; intros rs Hrs; [ exact Hrs | ].
  cbn. apply IH. apply Forall_alter; [ exact Hrs | ].
  intros r _ Hr. now rewrite length_insert.
Qed.

Lemma FixBoundaryR_fill_has_A (eq : Equilibrium T) (rows : list (list Z))
    (basis_modes : list mode) (i : nat) :
  triple has_A (FixBoundaryR_fill eq rows i basis_modes) (fun _ => has_A).
Proof.
  revert i. induction basis_modes as [ | [[l m] n] rest IH ]; intros i;
    cbn [FixBoundaryR_fill].
  - now apply triple_ret.
  - eapply triple_bind with (Q := fun _ => has_A); [ | intros ?; apply IH ].
    destruct (String.eqb (bdry_mode eq) "lcfs"); [ | now apply triple_ret ].
    eapply triple_bind with (Q := fun _ => has_A); [ now apply triple_lift | intros j ].
    eapply triple_bind with (Q := fun _ => has_A); [ now apply triple_gets | intros label ].
    eapply triple_bind with (Q := fun A self => has_A self /\ _A self = A);
      [ now apply triple_gets | intros A ].
    eapply triple_bind
      with (Q := fun A (_ : Objective T) => Forall (fun r => length r = ncols A) (LinearObjectives.rows A)).
    + apply triple_lift. intros self A' [(A0 & HA0 & Hwf) HA] Hget.
      rewrite HA0 in HA. subst A. injection Hget as <-. exact Hwf.
    + intros A'. apply triple_assign. intros self Hwf.
      apply has_A_set_A. exact (set_entries_rows A' j i _ Hwf).
Qed.

(** After [FixBoundaryR.build], [_A] is assigned and well-formed. *)
Lemma FixBoundaryR_build_has_A (eq : Equilibrium T) :
  base_build_frame ->
  triple (fun _ => True) (FixBoundaryR_build eq) (fun _ => has_A).
Proof.
  intros Hframe. unfold FixBoundaryR_build.
  eapply triple_bind; [ apply triple_true | intros sel ].
  eapply triple_bind; [ apply triple_true | intros [[rows idx] modes_idx] ].
  eapply triple_bind; [ apply triple_true | intros ? ].
  eapply triple_bind; [ apply triple_true | intros tgt ].
  eapply triple_bind; [ apply triple_true | intros ? ].
  eapply triple_bind; [ apply triple_true | intros fb ].
  eapply triple_bind with (Q := fun _ => has_A).
  { destruct fb.
    - eapply triple_bind; [ apply triple_true | intros dim_f ].
      eapply triple_bind; [ apply triple_true | intros dim_f' ].
      eapply triple_bind with (Q := fun _ => has_A); [ | intros ?; apply FixBoundaryR_fill_has_A ].
      apply triple_assign. intros self _. apply has_A_set_A, np_zeros_rows.
    - eapply triple_bind
        with (Q := fun A (_ : Objective T) =>
                     Forall (fun r => length r = ncols A) (LinearObjectives.rows A)).
      + apply triple_lift. intros self A _ HA. eapply eye_take_rows, HA.
      + intros A. apply triple_assign. intros self Hwf. now apply has_A_set_A. }
  intros ?.
  eapply triple_bind with (Q := fun _ => has_A); [ now apply triple_gets | intros tgt' ].
  eapply triple_bind with (Q := fun _ => has_A).
  { destruct tgt'; [ now apply triple_ret | ].
    eapply triple_bind with (Q := fun _ => has_A); [ now apply triple_lift | intros t ].
    apply triple_assign. intros self HA. revert HA. now apply has_A_frame. }
  intros ?.
  eapply triple_bind with (Q := fun _ => has_A); [ now apply triple_gets | intros nrm ].
  eapply triple_bind with (Q := fun _ => has_A).
  { destruct nrm; [ | now apply triple_ret ].
    destruct (compute_scaling_factors eq !! "a"); [ | apply triple_raise ].
    apply triple_assign. intros self HA. revert HA. now apply has_A_frame. }
  intros ? self self' u HA Hrun.
  destruct (Hframe eq self) as (_ & HfA & _). rewrite Hrun in HfA.
  revert HA. now apply has_A_frame.
Qed.

(** Once built, a [FixBoundaryR] computes [A @ x] for the matrix that
    [build] left in [_A]. *)
Corollary FixBoundaryR_compute_after_build (eq : Equilibrium T)
    (self self' : Objective T) :
  base_build_frame ->
  FixBoundaryR_build eq self = (self', Ok tt) ->
  exists A, Forall (fun r => length r = ncols A) (rows A) /\
            forall x, compute FixBoundaryR x self' = (self', dot A x).
Proof.
  intros Hframe Hbuild.
  destruct (FixBoundaryR_build_has_A eq Hframe self self' tt I Hbuild) as (A & HA & Hwf).
  exists A. split; [ exact Hwf | ].
  intros x. rewrite compute_run, HA. reflexivity.
Qed.

(** Once built, a [FixThetaSFL] returns its argument. *)
Corollary FixThetaSFL_compute_after_build (eq : Equilibrium T)
    (self self' : Objective T) (x : list T) :
  base_build_frame ->
  FixThetaSFL_build eq self = (self', Ok tt) ->
  length x = num_modes (L_basis eq) ->
  compute FixThetaSFL x self' = (self', Ok x).
Proof.
  intros Hframe Hbuild Hlen.
  rewrite compute_run, (FixThetaSFL_build_idx eq self self' Hframe Hbuild), <- Hlen.
  cbn. now rewrite take_arange.
Qed.

(** C9: with a [target] given and [modes] left at [True] or [False],
    [FixBoundaryR.build] raises [RuntimeError] and has not assigned
    [_A]. *)
Theorem FixBoundaryR_build_target_needs_modes (eq : Equilibrium T)
    (self : Objective T) (t : list T) :
  target self = Some t ->
  _modes self = ModesTrue \/ _modes self = ModesFalse ->
  snd (FixBoundaryR_build eq self) = Raise RuntimeError /\
  _A (fst (FixBoundaryR_build eq self)) = _A self.
Proof.
  intros Ht Hm. unfold FixBoundaryR_build. run_method.
  destruct Hm as [-> | ->]; cbn; rewrite Ht; cbn; split; reflexivity.
Qed.

End Builds.

Lemma FixThetaSFL_build_target_witness :
  base_build_frame /\
  target (fst (FixThetaSFL_build Sample.eq Sample.fresh)) = Some [0; 0; 0].
Proof.
  assert (F : base_build_frame (T := Z)) by (intros eq self; repeat split).
  split; [ exact F | ].
  exact (FixThetaSFL_build_target Sample.eq Sample.fresh
           (fst (FixThetaSFL_build Sample.eq Sample.fresh)) F eq_refl).
Defined.

Lemma FixBoundaryR_build_target_needs_modes_witness :
  target Sample.fresh = Some [5; 6; 7] /\
  _modes Sample.fresh = ModesTrue /\
  snd (FixBoundaryR_build Sample.eq Sample.fresh) = Raise RuntimeError /\
  _A (fst (FixBoundaryR_build Sample.eq Sample.fresh)) = None.
Proof.
  split; [ reflexivity | ]. split; [ reflexivity | ].
  apply (FixBoundaryR_build_target_needs_modes Sample.eq Sample.fresh [5; 6; 7]
           eq_refl (or_introl eq_refl)).
Defined.

End LinearObjectivesFacts.

(** ** The optimizer registry and the drivers *)

Module OptimizeFacts.
Import Optimize.
Local Open Scope Qc_scope.

Section Registry.
Variable lsqtr : Lsqtr.kwargs -> result OptimizeResult.
Variable fmintr : Fmintr.kwargs -> result OptimizeResult.
Variable sgd : Sgd.kwargs -> result OptimizeResult.

Local Abbreviation registry := (optimizers lsqtr fmintr sgd).

Lemma resolve_register (name : string) (r : optimizer)
    (reg : gmap string optimizer) :
  resolve name (<[name := r]> reg) = Ok r.
Proof. unfold resolve. now rewrite lookup_insert_eq. Qed.

Lemma resolve_other (name : string) (reg : gmap string optimizer) :
  name ∉ registered_names ->
  resolve name (register_all lsqtr fmintr sgd reg) = resolve name reg.
Proof.
  intros Hn. unfold resolve, register_all, register_optimizer. cbn.
  unfold registered_names in Hn.
  rewrite !lookup_insert_ne; [ reflexivity | .. ];
    intros <-; apply Hn; set_solver.
Qed.

Lemma resolve_unregistered (name : string) :
  name ∉ registered_names -> resolve name registry = Raise UnknownMethodError.
Proof.
  intros Hn. unfold optimizers. rewrite resolve_other by exact Hn.
  unfold resolve. now rewrite lookup_empty.
Qed.

Lemma registry_entries (name : string) (r : optimizer) :
  registry !! name = Some r ->
  (name = "lsq-exact" /\ r = entry (_optimize_desc_least_squares lsqtr) false false false) \/
  (name = "dogleg" /\ r = entry (_optimize_desc_fmin_scalar fmintr) true false true) \/
  (name = "subspace" /\ r = entry (_optimize_desc_fmin_scalar fmintr) true false true) \/
  (name = "dogleg-bfgs" /\ r = entry (_optimize_desc_fmin_scalar fmintr) true false false) \/
  (name = "subspace-bfgs" /\ r = entry (_optimize_desc_fmin_scalar fmintr) true false false) \/
  (name = "sgd" /\ r = entry (_optimize_desc_stochastic sgd) true true false).
Proof.
  unfold optimizers, register_all, register_optimizer. cbn.
  rewrite !lookup_insert_Some, lookup_empty.
  intros H. unfold entry.
  repeat match type of H with
         | _ \/ _ => destruct H as [H | H]
         | _ /\ _ => destruct H as [? H]
         end; subst; try discriminate; tauto.
Qed.

Lemma resolve_registered (reg : gmap string optimizer) :
  let reg' := register_all lsqtr fmintr sgd reg in
  resolve "lsq-exact" reg' =
    Ok (entry (_optimize_desc_least_squares lsqtr) false false false) /\
  resolve "dogleg" reg' =
    Ok (entry (_optimize_desc_fmin_scalar fmintr) true false true) /\
  resolve "subspace" reg' =
    Ok (entry (_optimize_desc_fmin_scalar fmintr) true false true) /\
  resolve "dogleg-bfgs" reg' =
    Ok (entry (_optimize_desc_fmin_scalar fmintr) true false false) /\
  resolve "subspace-bfgs" reg' =
    Ok (entry (_optimize_desc_fmin_scalar fmintr) true false false) /\
  resolve "sgd" reg' =
    Ok (entry (_optimize_desc_stochastic sgd) true true false).
Proof.
  unfold resolve, register_all, register_optimizer. cbn.
  repeat apply conj;
    repeat (rewrite lookup_insert_ne by discriminate);
    now rewrite lookup_insert_eq.
Qed.

(** C6: whatever the registry holds before the module is imported, each of
    the six names then resolves to the driver and the flags of its
    decorator; resolving straight after registering returns what was
    registered; a name outside the six resolves as it did before, so one
    that was never registered fails with [UnknownMethodError]. *)
Theorem resolve_registry (reg : gmap string optimizer) :
  let reg' := register_all lsqtr fmintr sgd reg in
  (resolve "lsq-exact" reg' =
     Ok (entry (_optimize_desc_least_squares lsqtr) false false false) /\
   resolve "dogleg" reg' =
     Ok (entry (_optimize_desc_fmin_scalar fmintr) true false true) /\
   resolve "subspace" reg' =
     Ok (entry (_optimize_desc_fmin_scalar fmintr) true false true) /\
   resolve "dogleg-bfgs" reg' =
     Ok (entry (_optimize_desc_fmin_scalar fmintr) true false false) /\
   resolve "subspace-bfgs" reg' =
     Ok (entry (_optimize_desc_fmin_scalar fmintr) true false false) /\
   resolve "sgd" reg' =
     Ok (entry (_optimize_desc_stochastic sgd) true true false)) /\
  (forall (name : string) (r : optimizer),
      resolve name (<[name := r]> reg) = Ok r) /\
  (forall name : string,
      name ∉ registered_names -> resolve name reg' = resolve name reg) /\
  (forall name : string,
      name ∉ registered_names -> reg !! name = None ->
      resolve name reg' = Raise UnknownMethodError) /\
  (forall name : string,
      name ∉ registered_names -> resolve name registry = Raise UnknownMethodError).
Proof.
  split; [ apply resolve_registered | ].
  split; [ intros name r; apply resolve_register | ].
  split; [ intros name Hn; now apply resolve_other | ].
  split; [ | apply resolve_unregistered ].
  intros name Hn Hnone. rewrite resolve_other by exact Hn.
  unfold resolve. now rewrite Hnone.
Qed.

Lemma getitem_error (d : gmap string Qc) (k : string) (e : exn) :
  getitem d k = Raise e -> e = KeyError.
Proof. unfold getitem. destruct (d !! k); [ discriminate | now intros [= <-] ]. Qed.

(** Evaluating the arguments of a solver call can only fail on a missing
    key of [stoptol]. *)
Lemma least_squares_kwargs_error objective x0 x_scale verbose stoptol options e :
  least_squares_kwargs objective x0 x_scale verbose stoptol options = Raise e ->
  e = KeyError.
Proof.
  unfold least_squares_kwargs.
  destruct (getitem stoptol "ftol") eqn:E1; [ | intros [= <-]; eapply getitem_error, E1 ].
  destruct (getitem stoptol "xtol") eqn:E2; [ | intros [= <-]; eapply getitem_error, E2 ].
  destruct (getitem stoptol "gtol") eqn:E3; [ | intros [= <-]; eapply getitem_error, E3 ].
  destruct (getitem stoptol "maxiter") eqn:E4; [ | intros [= <-]; eapply getitem_error, E4 ].
  discriminate.
Qed.

Lemma fmin_scalar_kwargs_error objective x0 method x_scale verbose stoptol options e :
  fmin_scalar_kwargs objective x0 method x_scale verbose stoptol options = Raise e ->
  e = KeyError.
Proof.
  unfold fmin_scalar_kwargs.
  destruct (getitem stoptol "ftol") eqn:E1; [ | intros [= <-]; eapply getitem_error, E1 ].
  destruct (getitem stoptol "xtol") eqn:E2; [ | intros [= <-]; eapply getitem_error, E2 ].
  destruct (getitem stoptol "gtol") eqn:E3; [ | intros [= <-]; eapply getitem_error, E3 ].
  destruct (getitem stoptol "maxiter") eqn:E4; [ | intros [= <-]; eapply getitem_error, E4 ].
  discriminate.
Qed.

Lemma stochastic_kwargs_error objective x0 method verbose stoptol options e :
  stochastic_kwargs objective x0 method verbose stoptol options = Raise e ->
  e = KeyError.
Proof.
  unfold stochastic_kwargs.
  destruct (getitem stoptol "ftol") eqn:E1; [ | intros [= <-]; eapply getitem_error, E1 ].
  destruct (getitem stoptol "xtol") eqn:E2; [ | intros [= <-]; eapply getitem_error, E2 ].
  destruct (getitem stoptol "gtol") eqn:E3; [ | intros [= <-]; eapply getitem_error, E3 ].
  destruct (getitem stoptol "maxiter") eqn:E4; [ | intros [= <-]; eapply getitem_error, E4 ].
  discriminate.
Qed.

(** C4: every registered entry declares no support for equality
    constraints; its driver fails with [AssertionError] on a constraint
    that is not [None], whatever the solver and the other arguments are,
    so before any of them is looked at; with [constraint = None] the
    assertion passes and the driver's result is the solver's on the
    arguments of the call, whose evaluation can only raise [KeyError]. *)
Theorem drivers_assert_no_constraint (name : string) (r : optimizer) :
  registry !! name = Some r ->
  equality_constraints r = false /\
  (forall objective c x0 method x_scale verbose stoptol options,
      fun_ r objective (Some c) x0 method x_scale verbose stoptol options =
      Raise AssertionError) /\
  (forall objective x0 method x_scale verbose stoptol options,
      (fun_ r objective None x0 method x_scale verbose stoptol options =
         (kw ← least_squares_kwargs objective x0 x_scale verbose stoptol options;
          lsqtr kw) /\
       forall e, least_squares_kwargs objective x0 x_scale verbose stoptol options
                 = Raise e -> e <> AssertionError) \/
      (fun_ r objective None x0 method x_scale verbose stoptol options =
         (kw ← fmin_scalar_kwargs objective x0 method x_scale verbose stoptol options;
          fmintr kw) /\
       forall e, fmin_scalar_kwargs objective x0 method x_scale verbose stoptol options
                 = Raise e -> e <> AssertionError) \/
      (fun_ r objective None x0 method x_scale verbose stoptol options =
         (kw ← stochastic_kwargs objective x0 method verbose stoptol options;
          sgd kw) /\
       forall e, stochastic_kwargs objective x0 method verbose stoptol options
                 = Raise e -> e <> AssertionError)).
Proof.
  intros Hr. apply registry_entries in Hr.
  destruct Hr as [[_ ->] | [[_ ->] | [[_ ->] | [[_ ->] | [[_ ->] | [_ ->]]]]]];
    (split; [ reflexivity | split; [ reflexivity | ] ]); intros.
  - left. split; [ reflexivity | ].
    intros e He. apply least_squares_kwargs_error in He. now subst.
  - right; left. split; [ reflexivity | ].
    intros e He. apply fmin_scalar_kwargs_error in He. now subst.
  - right; left. split; [ reflexivity | ].
    intros e He. apply fmin_scalar_kwargs_error in He. now subst.
  - right; left. split; [ reflexivity | ].
    intros e He. apply fmin_scalar_kwargs_error in He. now subst.
  - right; left. split; [ reflexivity | ].
    intros e He. apply fmin_scalar_kwargs_error in He. now subst.
  - right; right. split; [ reflexivity | ].
    intros e He. apply stochastic_kwargs_error in He. now subst.
Qed.

(** C5: the call of [fmintr] gets [hess = "bfgs"] for every method name
    that contains ["bfgs"] and the objective's [hess] otherwise, and the
    method name after [replace("-bfgs", "")]; on the four registered
    names that is the name without its ["-bfgs"] suffix, and their
    registered [hessian] flags are [True, True, False, False]. *)
Theorem fmin_scalar_hessian_model :
  (forall objective x0 method x_scale verbose stoptol options kw,
      fmin_scalar_kwargs objective x0 method x_scale verbose stoptol options = Ok kw ->
      _optimize_desc_fmin_scalar fmintr objective None x0 method x_scale verbose
        stoptol options = fmintr kw /\
      Fmintr.hess kw = (if contains "bfgs" method then HessStr "bfgs"
                        else HessCallable (hess objective)) /\
      Fmintr.method kw = replace "-bfgs" "" method) /\
  (contains "bfgs" "dogleg" = false /\ replace "-bfgs" "" "dogleg" = "dogleg") /\
  (contains "bfgs" "subspace" = false /\ replace "-bfgs" "" "subspace" = "subspace") /\
  (contains "bfgs" "dogleg-bfgs" = true /\ replace "-bfgs" "" "dogleg-bfgs" = "dogleg") /\
  (contains "bfgs" "subspace-bfgs" = true /\
   replace "-bfgs" "" "subspace-bfgs" = "subspace") /\
  hessian <$> registry !! "dogleg" = Some true /\
  hessian <$> registry !! "subspace" = Some true /\
  hessian <$> registry !! "dogleg-bfgs" = Some false /\
  hessian <$> registry !! "subspace-bfgs" = Some false.
Proof.
  split; [ | repeat apply conj; reflexivity ].
  intros objective x0 method x_scale verbose stoptol options kw Hkw.
  unfold _optimize_desc_fmin_scalar. rewrite Hkw. split; [ reflexivity | ].
  unfold fmin_scalar_kwargs in Hkw.
  destruct (getitem stoptol "ftol"); [ | discriminate ].
  destruct (getitem stoptol "xtol"); [ | discriminate ].
  destruct (getitem stoptol "gtol"); [ | discriminate ].
  destruct (getitem stoptol "maxiter"); [ | discriminate ].
  injection Hkw as <-. cbn.
  split; [ | reflexivity ].
  now destruct (contains "bfgs" method).
Qed.

End Registry.

(** A solver that is not available. *)
Lemma resolve_registry_witness :
  ("lsq" ∉ registered_names) /\
  resolve "lsq" (optimizers Model.lsqtr (fun _ => Raise ValueError) Model.sgd) =
    Raise UnknownMethodError /\
  resolve "sgd" (optimizers Model.lsqtr (fun _ => Raise ValueError) Model.sgd) =
    Ok (entry (_optimize_desc_stochastic Model.sgd) true true false).
Proof.
  assert (Hn : "lsq" ∉ registered_names).
  { unfold registered_names. rewrite !not_elem_of_cons.
    repeat split; try discriminate. apply not_elem_of_nil. }
  destruct (resolve_registry Model.lsqtr (fun _ => Raise ValueError) Model.sgd ∅)
    as ((_ & _ & _ & _ & _ & Hsgd) & _ & _ & _ & Hun).
  split; [ exact Hn | ]. split.
  - exact (Hun "lsq" Hn).
  - exact Hsgd.
Defined.

Lemma drivers_assert_no_constraint_witness :
  optimizers Model.lsqtr (fun _ => Raise ValueError) Model.sgd !! "dogleg-bfgs" =
    Some (entry (_optimize_desc_fmin_scalar (fun _ => Raise ValueError)) true false false) /\
  _optimize_desc_fmin_scalar (fun _ => Raise ValueError) Sample.objective
    (Some Sample.objective) [Q2Qc 3] "dogleg-bfgs" (ScaleArray [1]) 0 ∅ None =
    Raise AssertionError.
Proof.
  split; [ reflexivity | ].
  exact (proj1 (proj2 (drivers_assert_no_constraint Model.lsqtr (fun _ => Raise ValueError)
                         Model.sgd "dogleg-bfgs" _ eq_refl))
           Sample.objective Sample.objective [Q2Qc 3] "dogleg-bfgs" (ScaleArray [1])
           0%Z ∅ None).
Defined.

Lemma fmin_scalar_hessian_model_witness :
  exists kw,
    fmin_scalar_kwargs Sample.objective [Q2Qc 3] "subspace-bfgs" (ScaleArray [1]) 0
      (Sample.stoptol 5) None = Ok kw /\
    Fmintr.hess kw = HessStr "bfgs" /\
    Fmintr.method kw = "subspace".
Proof.
  eexists. split; [ reflexivity | ].
  exact (proj2 (proj1 (fmin_scalar_hessian_model Model.lsqtr (fun _ => Raise ValueError)
                         Model.sgd)
                  Sample.objective [Q2Qc 3] "subspace-bfgs" (ScaleArray [1]) 0%Z
                  (Sample.stoptol 5) None _ eq_refl)).
Defined.

(** *** Defaults of the trust-region options *)

Lemma setdefault_union (k : string) (v : Qc) (d : gmap string Qc) :
  setdefault k v d = d ∪ {[k := v]}.
Proof.
  unfold setdefault. destruct (d !! k) as [w | ] eqn:E.
  - apply map_eq. intros i. rewrite lookup_union.
    destruct (decide (k = i)) as [<- | Hne].
    + now rewrite E, lookup_singleton_eq.
    + rewrite lookup_singleton_ne by exact Hne. now destruct (d !! i).
  - now apply insert_union_singleton_r.
Qed.

Lemma setdefault_keeps (k k' : string) (v w : Qc) (d : gmap string Qc) :
  d !! k' = Some w -> setdefault k v d !! k' = Some w.
Proof.
  intros Hk. rewrite setdefault_union. now apply lookup_union_Some_l.
Qed.

(** C3, as the drivers have it: with a unit [x_scale] the least-squares
    driver fills in [initial_trust_radius = 1e-3] and
    [max_trust_radius = 1.0], the scalar driver [initial_trust_ratio = 1e-3]
    and [max_trust_radius = 1.0], constants that do not involve [x0], for
    the keys the caller left out; a value the caller supplied is kept; the
    stochastic driver adds nothing. *)
Theorem unit_scale_defaults objective x0 method x_scale verbose stoptol options :
  unit_scale x_scale = true ->
  (forall kw,
      least_squares_kwargs objective x0 x_scale verbose stoptol options = Ok kw ->
      Lsqtr.options kw =
        default ∅ options ∪ {["initial_trust_radius" := Q2Qc (1 # 1000)]}
                          ∪ {["max_trust_radius" := 1]} /\
      forall k v, default ∅ options !! k = Some v -> Lsqtr.options kw !! k = Some v) /\
  (forall kw,
      fmin_scalar_kwargs objective x0 method x_scale verbose stoptol options = Ok kw ->
      Fmintr.options kw =
        default ∅ options ∪ {["initial_trust_ratio" := Q2Qc (1 # 1000)]}
                          ∪ {["max_trust_radius" := 1]} /\
      forall k v, default ∅ options !! k = Some v -> Fmintr.options kw !! k = Some v) /\
  (forall kw,
      stochastic_kwargs objective x0 method verbose stoptol options = Ok kw ->
      Sgd.options kw = default ∅ options).
Proof.
  intros Hunit. repeat apply conj; intros kw Hkw.
  - unfold least_squares_kwargs in Hkw. rewrite Hunit in Hkw.
    destruct (getitem stoptol "ftol"); [ | discriminate ].
    destruct (getitem stoptol "xtol"); [ | discriminate ].
    destruct (getitem stoptol "gtol"); [ | discriminate ].
    destruct (getitem stoptol "maxiter"); [ | discriminate ].
    injection Hkw as <-. cbn. split.
    + now rewrite !setdefault_union.
    + intros k v Hk. now apply setdefault_keeps, setdefault_keeps.
  - unfold fmin_scalar_kwargs in Hkw. rewrite Hunit in Hkw.
    destruct (getitem stoptol "ftol"); [ | discriminate ].
    destruct (getitem stoptol "xtol"); [ | discriminate ].
    destruct (getitem stoptol "gtol"); [ | discriminate ].
    destruct (getitem stoptol "maxiter"); [ | discriminate ].
    injection Hkw as <-. cbn. split.
    + now rewrite !setdefault_union.
    + intros k v Hk. now apply setdefault_keeps, setdefault_keeps.
  - unfold stochastic_kwargs in Hkw.
    destruct (getitem stoptol "ftol"); [ | discriminate ].
    destruct (getitem stoptol "xtol"); [ | discriminate ].
    destruct (getitem stoptol "gtol"); [ | discriminate ].
    destruct (getitem stoptol "maxiter"); [ | discriminate ].
    now injection Hkw as <-.
Qed.

Lemma unit_scale_defaults_witness :
  unit_scale (ScaleArray [1; Q2Qc (1000001 # 1000000)]) = true /\
  exists kw,
    least_squares_kwargs Sample.objective [Q2Qc 3]
      (ScaleArray [1; Q2Qc (1000001 # 1000000)])
      0 (Sample.stoptol 5) (Some {["max_trust_radius" := Q2Qc 7]}) = Ok kw /\
    Lsqtr.options kw =
      {["max_trust_radius" := Q2Qc 7]} ∪ {["initial_trust_radius" := Q2Qc (1 # 1000)]}
                                       ∪ {["max_trust_radius" := 1]}.
Proof.
  split; [ reflexivity | ].
  eexists. split; [ reflexivity | ].
  exact (proj1 (proj1 (unit_scale_defaults Sample.objective [Q2Qc 3] "lsq-exact"
                         (ScaleArray [1; Q2Qc (1000001 # 1000000)]) 0%Z
                         (Sample.stoptol 5)
                         (Some {["max_trust_radius" := Q2Qc 7]}) eq_refl)
                  _ eq_refl)).
Defined.

(** C3 as stated fails: with a unit [x_scale] and no options, the call of
    [lsqtr] has no [max_trust_ratio]; its [initial_trust_radius] is [1e-3]
    for [x0 = [3]] and for [x0 = [3000]] alike; and the call of [fmintr]
    has no [initial_trust_radius]. *)
Lemma unit_scale_defaults_counterexample :
  unit_scale (ScaleArray [1]) = true /\
  match least_squares_kwargs Sample.objective [Q2Qc 3] (ScaleArray [1]) 0
          (Sample.stoptol 5) None,
        least_squares_kwargs Sample.objective [Q2Qc 3000] (ScaleArray [1]) 0
          (Sample.stoptol 5) None,
        fmin_scalar_kwargs Sample.objective [Q2Qc 3] "dogleg" (ScaleArray [1]) 0
          (Sample.stoptol 5) None
  with
  | Ok kw, Ok kw', Ok kw'' =>
      Lsqtr.options kw !! "max_trust_ratio" = None /\
      Lsqtr.options kw !! "initial_trust_radius" = Some (Q2Qc (1 # 1000)) /\
      Lsqtr.options kw' !! "initial_trust_radius" = Some (Q2Qc (1 # 1000)) /\
      Fmintr.options kw'' !! "initial_trust_radius" = None /\
      Fmintr.options kw'' !! "max_trust_ratio" = None
  | _, _, _ => False
  end.
Proof. repeat split. Qed.

(** *** The least-squares driver and the budgets of [stoptol] *)

Lemma least_squares_kwargs_stoptol objective x0 x_scale verbose options
    (st1 st2 : gmap string Qc) :
  st1 !! "ftol" = st2 !! "ftol" ->
  st1 !! "xtol" = st2 !! "xtol" ->
  st1 !! "gtol" = st2 !! "gtol" ->
  st1 !! "maxiter" = st2 !! "maxiter" ->
  least_squares_kwargs objective x0 x_scale verbose st1 options =
  least_squares_kwargs objective x0 x_scale verbose st2 options.
Proof.
  intros Hf Hx Hg Hm. unfold least_squares_kwargs, getitem.
  now rewrite Hf, Hx, Hg, Hm.
Qed.

Section LsqtrModel.
Import Model.
Context `{StepSolver}.
Variable kw : Lsqtr.kwargs.

Lemma trial_iteration (retries : nat) (s : TrustRegionState) :
  match trial kw retries s with
  | inl (s', _, _) => tr_iteration s' = S (tr_iteration s)
  | inr s' => tr_iteration s' = tr_iteration s
  end.
Proof.
  revert s. induction retries as [ | r IH ]; intros s; cbn [trial]; [ reflexivity | ].
  destruct (Qcltb 0 _); [ reflexivity | ].
  match goal with |- context [trial kw r ?s'] => specialize (IH s') end.
  destruct (trial kw r _) as [[[s' st] ar] | s']; exact IH.
Qed.

(** The loop performs at most [fuel] iterations. *)
Lemma iterate_iteration (fuel : nat) (s : TrustRegionState) :
  (tr_iteration (fst (iterate kw fuel s)) <= tr_iteration s + fuel)%nat.
Proof.
  revert s. induction fuel as [ | fuel IH ]; intros s; cbn [iterate].
  - destruct (Qcltb _ _); [ cbn; lia | ].
    destruct (budget_exhausted kw s); cbn; lia.
  - destruct (Qcltb _ _); [ cbn; lia | ].
    destruct (budget_exhausted kw s); [ cbn; lia | ].
    pose proof (trial_iteration max_retries s) as Ht.
    destruct (trial kw max_retries s) as [[[s' st] ar] | s'].
    + destruct (_ || _); [ cbn; lia | ].
      specialize (IH s'). lia.
    + cbn. lia.
Qed.

Lemma of_nat_ceiling (q : Qc) : q ≤ of_nat (Z.to_nat (Qceiling q)).
Proof.
  unfold Qcle, of_nat. cbn [this Q2Qc]. rewrite Qred_correct.
  apply Qle_trans with (inject_Z (Qceiling q)); [ apply Qle_ceiling | ].
  rewrite <- Zle_Qle. lia.
Qed.

(** The loop stops with [MAX_ITER] only on an exhausted budget. *)
Lemma iterate_max_iter (fuel : nat) (s : TrustRegionState) :
  Lsqtr.maxiter kw ≤ of_nat (tr_iteration s + fuel) ->
  snd (iterate kw fuel s) = MAX_ITER ->
  budget_exhausted kw (fst (iterate kw fuel s)) = true.
Proof.
  revert s. induction fuel as [ | fuel IH ]; intros s Hfuel; cbn [iterate].
  - destruct (Qcltb _ _); [ discriminate | ].
    destruct (budget_exhausted kw s) eqn:E; [ intros _; exact E | ].
    exfalso. unfold budget_exhausted in E.
    apply orb_false_iff in E as [E _]. apply orb_false_iff in E as [E _].
    unfold Qcleb in E. apply bool_decide_eq_false in E. apply E.
    now rewrite Nat.add_0_r in Hfuel.
  - destruct (Qcltb _ _); [ discriminate | ].
    destruct (budget_exhausted kw s) eqn:E; [ intros _; exact E | ].
    pose proof (trial_iteration max_retries s) as Ht.
    destruct (trial kw max_retries s) as [[[s' st] ar] | s'].
    + destruct (_ || _); [ discriminate | ].
      apply IH. rewrite Ht.
      now replace (S (tr_iteration s) + fuel)%nat with (tr_iteration s + S fuel)%nat by lia.
    + discriminate.
Qed.

Lemma run_iteration : (tr_iteration (fst (run kw)) <= iterations_allowed kw)%nat.
Proof. unfold run. apply (iterate_iteration (iterations_allowed kw) (init kw)). Qed.

Lemma run_max_iter :
  snd (run kw) = MAX_ITER -> budget_exhausted kw (fst (run kw)) = true.
Proof.
  unfold run. apply iterate_max_iter. cbn [init tr_iteration Nat.add].
  apply of_nat_ceiling.
Qed.

End LsqtrModel.

(** C2, as the driver has it: of [stoptol] only [ftol], [xtol], [gtol] and
    [maxiter] reach [lsqtr], so two sets of tolerances that agree on these
    four give the same run whatever their [max_nfev] and [max_njev] are;
    the run performs at most [maxiter] iterations; and a run that ends on
    an exhausted budget returns, without raising, a result with
    [success = False] and a message, the budget being [maxiter] or an
    evaluation budget given in [options]. *)
Theorem least_squares_budget `{Model.StepSolver} :
  (forall lsqtr objective constraint x0 method x_scale verbose options
          (st1 st2 : gmap string Qc),
      st1 !! "ftol" = st2 !! "ftol" ->
      st1 !! "xtol" = st2 !! "xtol" ->
      st1 !! "gtol" = st2 !! "gtol" ->
      st1 !! "maxiter" = st2 !! "maxiter" ->
      _optimize_desc_least_squares lsqtr objective constraint x0 method x_scale
        verbose st1 options =
      _optimize_desc_least_squares lsqtr objective constraint x0 method x_scale
        verbose st2 options) /\
  (forall lsqtr objective constraint x0 method x_scale verbose options
          (stoptol : gmap string Qc) (budget_f budget_j : Qc),
      _optimize_desc_least_squares lsqtr objective constraint x0 method x_scale
        verbose (<["max_nfev" := budget_f]> (<["max_njev" := budget_j]> stoptol))
        options =
      _optimize_desc_least_squares lsqtr objective constraint x0 method x_scale
        verbose stoptol options) /\
  (forall objective x0 method x_scale verbose options (stoptol : gmap string Qc)
          (ftol xtol gtol maxiter : Qc),
      stoptol !! "ftol" = Some ftol ->
      stoptol !! "xtol" = Some xtol ->
      stoptol !! "gtol" = Some gtol ->
      stoptol !! "maxiter" = Some maxiter ->
      exists kw res,
        least_squares_kwargs objective x0 x_scale verbose stoptol options = Ok kw /\
        _optimize_desc_least_squares Model.lsqtr objective None x0 method x_scale
          verbose stoptol options = Ok res /\
        (nit res <= Z.to_nat (Qceiling maxiter))%nat /\
        success res = Model.is_converged (snd (Model.run kw)) /\
        (snd (Model.run kw) = Model.MAX_ITER ->
         success res = false /\
         message res <> EmptyString /\
         Model.budget_exhausted kw (fst (Model.run kw)) = true)).
Proof.
  assert (Hagree : forall lsqtr objective constraint x0 method x_scale verbose options
                          (st1 st2 : gmap string Qc),
             st1 !! "ftol" = st2 !! "ftol" ->
             st1 !! "xtol" = st2 !! "xtol" ->
             st1 !! "gtol" = st2 !! "gtol" ->
             st1 !! "maxiter" = st2 !! "maxiter" ->
             _optimize_desc_least_squares lsqtr objective constraint x0 method x_scale
               verbose st1 options =
             _optimize_desc_least_squares lsqtr objective constraint x0 method x_scale
               verbose st2 options).
  { intros lsqtr objective constraint x0 method x_scale verbose options st1 st2
      Hf Hx Hg Hm.
    unfold _optimize_desc_least_squares.
    now rewrite (least_squares_kwargs_stoptol objective x0 x_scale verbose options
                   st1 st2 Hf Hx Hg Hm). }
  split; [ exact Hagree | ]. split.
  - intros. apply Hagree; now rewrite !lookup_insert_ne by discriminate.
  - intros objective x0 method x_scale verbose options stoptol ftol xtol gtol maxiter
      Hf Hx Hg Hm.
    unfold _optimize_desc_least_squares, least_squares_kwargs, getitem.
    rewrite Hf, Hx, Hg, Hm. cbn.
    eexists. eexists. split; [ reflexivity | ]. split; [ reflexivity | ].
    match goal with |- context [Model.run ?k] => set (kw := k) end.
    split.
    + pose proof (run_iteration kw) as Hit.
      unfold Model.make_result. destruct (Model.run kw) as [s t]. exact Hit.
    + split; [ unfold Model.make_result; now destruct (Model.run kw) as [s t] | ].
      intros Hmax. pose proof (run_max_iter kw Hmax) as Hb.
      unfold Model.make_result. destruct (Model.run kw) as [s t].
      cbn in Hmax. subst t. cbn. repeat split; [ discriminate | exact Hb ].
Qed.

Lemma least_squares_budget_witness :
  exists res,
    _optimize_desc_least_squares Model.lsqtr Sample.objective None [Q2Qc 3] "lsq-exact"
      (ScaleArray [1]) 0 (Sample.stoptol 5) None = Ok res /\
    (nit res <= 5)%nat.
Proof.
  destruct (proj2 (proj2 least_squares_budget) Sample.objective [Q2Qc 3] "lsq-exact"
              (ScaleArray [1]) 0%Z None (Sample.stoptol 5) 0 0 0 (Q2Qc 5)
              eq_refl eq_refl eq_refl eq_refl)
    as (kw & res & _ & Hres & Hnit & _).
  exists res. split; [ exact Hres | exact Hnit ].
Defined.

(** C2 as stated fails: with [max_nfev = max_njev = 1] in [stoptol] the
    run goes on for the five iterations [maxiter] allows and makes six
    evaluations of the residual and six of the Jacobian. *)
Lemma least_squares_budget_counterexample :
  Sample.stoptol 5 !! "max_nfev" = Some 1 /\
  Sample.stoptol 5 !! "max_njev" = Some 1 /\
  match _optimize_desc_least_squares Model.lsqtr Sample.objective None [Q2Qc 3]
          "lsq-exact" (ScaleArray [1]) 0 (Sample.stoptol 5) None with
  | Ok res => nit res = 5%nat /\ nfev res = 6%nat /\ njev res = 6%nat /\ success res = false
  | Raise _ => False
  end.
Proof. vm_compute. repeat split. Qed.

(** *** The stochastic driver *)

Section SgdModel.
Import Model.
Variable kw : Sgd.kwargs.
Hypothesis grad_shape : forall v, length (Sgd.grad kw v) = length v.

Lemma vminus_vscale_zero (v g : list Qc) :
  length g = length v -> vminus v (vscale 0 g) = v.
Proof.
  revert g. induction v as [ | a v IH ]; intros [ | b g ] Hlen; cbn in *;
    try discriminate; [ reflexivity | ].
  f_equal; [ ring | ]. apply IH. now injection Hlen.
Qed.

Lemma sgd_iterate_zero (fuel k : nat) (v : list Qc) :
  fst (fst (sgd_iterate kw fuel k 0 v)) = v.
Proof.
  revert k v. induction fuel as [ | fuel IH ]; intros k v; cbn [sgd_iterate];
    [ reflexivity | ].
  rewrite vminus_vscale_zero by apply grad_shape.
  destruct (_ || _); [ reflexivity | ].
  replace (0 * decay kw) with 0 by ring. apply IH.
Qed.

End SgdModel.

(** C7: with learning rate 0 the stochastic driver returns [x0], for every
    starting point, every [maxiter] and every decay. *)
Theorem sgd_zero_learning_rate objective x0 method x_scale verbose
    (stoptol options : gmap string Qc) (ftol xtol gtol maxiter : Qc) :
  (forall v, length (grad objective v) = length v) ->
  options !! "learning_rate" = Some 0 ->
  stoptol !! "ftol" = Some ftol ->
  stoptol !! "xtol" = Some xtol ->
  stoptol !! "gtol" = Some gtol ->
  stoptol !! "maxiter" = Some maxiter ->
  exists res,
    _optimize_desc_stochastic Model.sgd objective None x0 method x_scale verbose
      stoptol (Some options) = Ok res /\
    x res = x0.
Proof.
  intros Hshape Hlr Hf Hx Hg Hm.
  unfold _optimize_desc_stochastic, stochastic_kwargs, getitem.
  rewrite Hf, Hx, Hg, Hm. cbn.
  unfold Model.sgd.
  match goal with |- context [Model.sgd_iterate ?k ?fuel 0%nat ?eta ?v] =>
    pose proof (sgd_iterate_zero k Hshape fuel 0%nat v) as Hz;
    replace eta with 0 in * by (unfold Model.learning_rate; cbn; now rewrite Hlr);
    destruct (Model.sgd_iterate k fuel 0%nat 0 v) as [[xf t] n]
  end.
  eexists. split; [ reflexivity | exact Hz ].
Qed.

Lemma sgd_zero_learning_rate_witness :
  exists res,
    _optimize_desc_stochastic Model.sgd Sample.objective None [Q2Qc 3] "sgd"
      (ScaleStr "jac") 0 (Sample.stoptol 8) (Some {["learning_rate" := 0]}) = Ok res /\
    x res = [Q2Qc 3].
Proof.
  apply (sgd_zero_learning_rate Sample.objective [Q2Qc 3] "sgd" (ScaleStr "jac") 0%Z
           (Sample.stoptol 8) {["learning_rate" := 0]} 0 0 0 (Q2Qc 8)).
  - intros v. apply length_map.
  - reflexivity.
  - reflexivity.
  - reflexivity.
  - reflexivity.
  - reflexivity.
Defined.

End OptimizeFacts.

(** ** More on the drivers *)

Module DriverFacts.
Import Optimize OptimizeConditions.
Local Open Scope Qc_scope.

Section Drivers.
Variable lsqtr : Lsqtr.kwargs -> result OptimizeResult.
Variable fmintr : Fmintr.kwargs -> result OptimizeResult.
Variable sgd : Sgd.kwargs -> result OptimizeResult.

Lemma has_tolerances_true (stoptol : gmap string Qc) :
  has_tolerances stoptol = true ->
  exists ftol xtol gtol maxiter,
    stoptol !! "ftol" = Some ftol /\ stoptol !! "xtol" = Some xtol /\
    stoptol !! "gtol" = Some gtol /\ stoptol !! "maxiter" = Some maxiter.
Proof.
  unfold has_tolerances, tolerance_keys. cbn [forallb].
  rewrite !andb_true_iff, !bool_decide_eq_true.
  intros ([f Hf] & [x Hx] & [g Hg] & [m Hm] & _). now exists f, x, g, m.
Qed.

Lemma has_tolerances_false (stoptol : gmap string Qc) :
  has_tolerances stoptol = false ->
  (forall k, getitem stoptol k = Raise KeyError <-> stoptol !! k = None) /\
  ((stoptol !! "ftol" = None) \/
   (is_Some (stoptol !! "ftol") /\ stoptol !! "xtol" = None) \/
   (is_Some (stoptol !! "ftol") /\ is_Some (stoptol !! "xtol") /\
    stoptol !! "gtol" = None) \/
   (is_Some (stoptol !! "ftol") /\ is_Some (stoptol !! "xtol") /\
    is_Some (stoptol !! "gtol") /\ stoptol !! "maxiter" = None)).
Proof.
  intros Hf. split.
  - intros k. unfold getitem. destruct (stoptol !! k); split; congruence.
  - unfold has_tolerances, tolerance_keys in Hf. cbn [forallb] in Hf.
    destruct (stoptol !! "ftol") eqn:E1; [ | now left ].
    destruct (stoptol !! "xtol") eqn:E2; [ | right; left; eauto ].
    destruct (stoptol !! "gtol") eqn:E3; [ | right; right; left; eauto ].
    destruct (stoptol !! "maxiter") eqn:E4; [ | right; right; right; eauto 6 ].
    exfalso. revert Hf.
    repeat (rewrite bool_decide_eq_true_2 by eauto). discriminate.
Qed.

(** X1: a driver called without a constraint raises [KeyError], without
    calling its solver, exactly when [stoptol] lacks one of ["ftol"],
    ["xtol"], ["gtol"], ["maxiter"]; with the four present it returns what
    the solver returns on the arguments built, whatever other keys
    [stoptol] has or lacks. *)
Theorem drivers_need_tolerances objective x0 method x_scale verbose
    (stoptol : gmap string Qc) options :
  if has_tolerances stoptol
  then
    (exists kw,
        least_squares_kwargs objective x0 x_scale verbose stoptol options = Ok kw /\
        _optimize_desc_least_squares lsqtr objective None x0 method x_scale verbose
          stoptol options = lsqtr kw) /\
    (exists kw,
        fmin_scalar_kwargs objective x0 method x_scale verbose stoptol options = Ok kw /\
        _optimize_desc_fmin_scalar fmintr objective None x0 method x_scale verbose
          stoptol options = fmintr kw) /\
    (exists kw,
        stochastic_kwargs objective x0 method verbose stoptol options = Ok kw /\
        _optimize_desc_stochastic sgd objective None x0 method x_scale verbose
          stoptol options = sgd kw)
  else
    _optimize_desc_least_squares lsqtr objective None x0 method x_scale verbose
      stoptol options = Raise KeyError /\
    _optimize_desc_fmin_scalar fmintr objective None x0 method x_scale verbose
      stoptol options = Raise KeyError /\
    _optimize_desc_stochastic sgd objective None x0 method x_scale verbose
      stoptol options = Raise KeyError.
Proof.
  destruct (has_tolerances stoptol) eqn:E.
  - apply has_tolerances_true in E as (f & xt & g & m & Hf & Hx & Hg & Hm).
    unfold _optimize_desc_least_squares, _optimize_desc_fmin_scalar,
      _optimize_desc_stochastic, least_squares_kwargs, fmin_scalar_kwargs,
      stochastic_kwargs, getitem.
    rewrite Hf, Hx, Hg, Hm. cbn.
    repeat split; eexists; split; reflexivity.
  - apply has_tolerances_false in E as [_ E].
    unfold _optimize_desc_least_squares, _optimize_desc_fmin_scalar,
      _optimize_desc_stochastic, least_squares_kwargs, fmin_scalar_kwargs,
      stochastic_kwargs, getitem.
    destruct E as [E | [([f Hf] & E) | [([f Hf] & [xt Hx] & E) |
                                        ([f Hf] & [xt Hx] & [g Hg] & E)]]];
      rewrite ?Hf, ?Hx, ?Hg, E; cbn; repeat split.
Qed.

End Drivers.

(** X2: when [x_scale] is a string, or an array that is not all ones, the
    least-squares and scalar drivers pass on the caller's options as they
    are, the empty dictionary when there are none. *)
Theorem other_scale_keeps_options objective x0 method x_scale verbose
    (stoptol : gmap string Qc) options :
  unit_scale x_scale = false ->
  (forall kw,
      least_squares_kwargs objective x0 x_scale verbose stoptol options = Ok kw ->
      Lsqtr.options kw = default ∅ options) /\
  (forall kw,
      fmin_scalar_kwargs objective x0 method x_scale verbose stoptol options = Ok kw ->
      Fmintr.options kw = default ∅ options).
Proof.
  intros Hunit. split; intros kw Hkw.
  - unfold least_squares_kwargs in Hkw. rewrite Hunit in Hkw.
    destruct (getitem stoptol "ftol"); [ | discriminate ].
    destruct (getitem stoptol "xtol"); [ | discriminate ].
    destruct (getitem stoptol "gtol"); [ | discriminate ].
    destruct (getitem stoptol "maxiter"); [ | discriminate ].
    now injection Hkw as <-.
  - unfold fmin_scalar_kwargs in Hkw. rewrite Hunit in Hkw.
    destruct (getitem stoptol "ftol"); [ | discriminate ].
    destruct (getitem stoptol "xtol"); [ | discriminate ].
    destruct (getitem stoptol "gtol"); [ | discriminate ].
    destruct (getitem stoptol "maxiter"); [ | discriminate ].
    now injection Hkw as <-.
Qed.

Lemma other_scale_keeps_options_witness :
  unit_scale (ScaleStr "jac") = false /\
  exists kw,
    least_squares_kwargs Sample.objective [Q2Qc 3] (ScaleStr "jac") 0
      (Sample.stoptol 5) None = Ok kw /\
    Lsqtr.options kw = ∅.
Proof.
  split; [ reflexivity | ].
  eexists. split; [ reflexivity | ].
  exact (proj1 (other_scale_keeps_options Sample.objective [Q2Qc 3] "lsq-exact"
                  (ScaleStr "jac") 0%Z (Sample.stoptol 5) None eq_refl) _ eq_refl).
Defined.

Lemma allclose_bound : atol + rtol * Qcabs 1 = unit_tolerance.
Proof. apply Qc_is_canon. reflexivity. Qed.

Lemma close_to_one (a : Qc) :
  Qcabs (a - 1) ≤ unit_tolerance <-> 1 - unit_tolerance ≤ a /\ a ≤ 1 + unit_tolerance.
Proof.
  rewrite Qcabs_diff_Qcle_condition.
  rewrite (Qcle_minus_iff (a - unit_tolerance) 1), (Qcle_minus_iff 1 (a + unit_tolerance)),
    (Qcle_minus_iff (1 - unit_tolerance) a), (Qcle_minus_iff a (1 + unit_tolerance)).
  replace (1 + - (a - unit_tolerance)) with (1 + unit_tolerance + - a) by ring.
  replace (a + unit_tolerance + - 1) with (a + - (1 - unit_tolerance)) by ring.
  tauto.
Qed.

(** X3: [x_scale] counts as unit exactly when it is not a string and every
    entry lies within [1.001e-5] of 1; an empty array counts as unit. *)
Theorem unit_scale_tolerance :
  (forall s, unit_scale (ScaleStr s) = false) /\
  unit_scale (ScaleArray []) = true /\
  (forall v,
      unit_scale (ScaleArray v) = true <->
      forall a, In a v -> 1 - unit_tolerance ≤ a /\ a ≤ 1 + unit_tolerance).
Proof.
  split; [ reflexivity | ]. split; [ reflexivity | ].
  intros v. unfold unit_scale, allclose. rewrite forallb_forall.
  split; intros Hv a Ha; specialize (Hv a Ha).
  - apply bool_decide_eq_true in Hv. rewrite allclose_bound in Hv.
    now apply close_to_one.
  - apply bool_decide_eq_true. rewrite allclose_bound. now apply close_to_one.
Qed.

Lemma replace_from_absent (old new s : string) :
  contains old s = false -> replace_from old new 0 s = s.
Proof.
  induction s as [ | c s IH ]; [ reflexivity | ].
  cbn [contains replace_from]. intros H. apply orb_false_iff in H as [Hp Hc].
  rewrite Hp. f_equal. now apply IH.
Qed.

Lemma contains_append (sub pre s : string) :
  contains sub s = true -> contains sub (String.append pre s) = true.
Proof.
  intros Hs. induction pre as [ | c pre IH ]; [ exact Hs | ].
  change (contains sub (String c (String.append pre s)) = true).
  cbn [contains]. rewrite IH. apply orb_true_r.
Qed.

Lemma replace_suffix (base : string) :
  contains "-" base = false ->
  replace "-bfgs" "" (String.append base "-bfgs") = base.
Proof.
  unfold replace. induction base as [ | c base IH ]; [ reflexivity | ].
  intros H. cbn [contains] in H. apply orb_false_iff in H as [Hp Hc].
  change (replace_from "-bfgs" "" 0 (String c (String.append base "-bfgs")) =
          String c base).
  cbn [replace_from].
  assert (Hpre : String.prefix "-bfgs" (String c (String.append base "-bfgs")) = false).
  { cbn [String.prefix] in Hp |- *.
    destruct (ascii_dec "-" c) as [E | Hne]; [ now destruct base | reflexivity ]. }
  rewrite Hpre. f_equal. now apply IH.
Qed.

(** X4: the scalar driver hands [fmintr] the method name unchanged when
    ["-bfgs"] does not occur in it; and for a name [base ++ "-bfgs"] whose
    [base] has no hyphen it hands over [base] together with
    [hess = "bfgs"]. *)
Theorem fmin_scalar_method_name objective x0 x_scale verbose
    (stoptol : gmap string Qc) options :
  (forall method kw,
      contains "-bfgs" method = false ->
      fmin_scalar_kwargs objective x0 method x_scale verbose stoptol options = Ok kw ->
      Fmintr.method kw = method) /\
  (forall base kw,
      contains "-" base = false ->
      fmin_scalar_kwargs objective x0 (String.append base "-bfgs") x_scale verbose
        stoptol options = Ok kw ->
      Fmintr.method kw = base /\ Fmintr.hess kw = HessStr "bfgs").
Proof.
  split.
  - intros method kw Habs Hkw. unfold fmin_scalar_kwargs in Hkw.
    destruct (getitem stoptol "ftol"); [ | discriminate ].
    destruct (getitem stoptol "xtol"); [ | discriminate ].
    destruct (getitem stoptol "gtol"); [ | discriminate ].
    destruct (getitem stoptol "maxiter"); [ | discriminate ].
    injection Hkw as <-. cbn. now apply replace_from_absent.
  - intros base kw Hbase Hkw. unfold fmin_scalar_kwargs in Hkw.
    destruct (getitem stoptol "ftol"); [ | discriminate ].
    destruct (getitem stoptol "xtol"); [ | discriminate ].
    destruct (getitem stoptol "gtol"); [ | discriminate ].
    destruct (getitem stoptol "maxiter"); [ | discriminate ].
    injection Hkw as <-. cbn [Fmintr.method Fmintr.hess]. split.
    + now apply replace_suffix.
    + rewrite (contains_append "bfgs" base "-bfgs") by reflexivity. reflexivity.
Qed.

Lemma fmin_scalar_method_name_witness :
  contains "-bfgs" "bfgs" = false /\
  contains "-" "dogleg" = false /\
  exists kw kw',
    fmin_scalar_kwargs Sample.objective [Q2Qc 3] "bfgs" (ScaleArray [1]) 0
      (Sample.stoptol 5) None = Ok kw /\
    Fmintr.method kw = "bfgs" /\
    fmin_scalar_kwargs Sample.objective [Q2Qc 3] "dogleg-bfgs" (ScaleArray [1]) 0
      (Sample.stoptol 5) None = Ok kw' /\
    Fmintr.method kw' = "dogleg" /\ Fmintr.hess kw' = HessStr "bfgs".
Proof.
  split; [ reflexivity | ]. split; [ reflexivity | ].
  destruct (fmin_scalar_method_name Sample.objective [Q2Qc 3] (ScaleArray [1]) 0%Z
              (Sample.stoptol 5) None) as [Hsame Hsuffix].
  eexists. eexists.
  split; [ reflexivity | ].
  split; [ exact (Hsame "bfgs" _ eq_refl eq_refl) | ].
  split; [ reflexivity | ].
  exact (Hsuffix "dogleg" _ eq_refl eq_refl).
Defined.

End DriverFacts.

(** ** More on the linear objectives *)

Module LinearObjectivesMoreFacts.
Import LinearObjectives LinearObjectivesMore LinearObjectivesFacts.

(** *** [np.intersect1d] *)

Lemma insert_unique_elem (a v : mode) (l : list mode) :
  v ∈ insert_unique a l -> v = a \/ v ∈ l.
Proof.
  induction l as [ | b l IH ]; cbn.
  - rewrite list_elem_of_singleton. now left.
  - destruct (mode_ltb a b).
    + rewrite elem_of_cons. intros [-> | Hv]; [ now left | now right ].
    + destruct (mode_ltb b a).
      * rewrite !elem_of_cons. intros [-> | Hv]; [ right; now left | ].
        destruct (IH Hv) as [-> | Hl]; [ now left | right; now right ].
      * now right.
Qed.

Lemma np_unique_elem (v : mode) (l : list mode) : v ∈ np_unique l -> v ∈ l.
Proof.
  unfold np_unique. induction l as [ | a l IH ]; cbn; [ easy | ].
  intros Hv. apply insert_unique_elem in Hv as [-> | Hv].
  - apply list_elem_of_here.
  - apply list_elem_of_further. now apply IH.
Qed.

Lemma first_index_elem (v : mode) (l : list mode) :
  v ∈ l -> exists i, first_index v l = Some (Z.of_nat i) /\ l !! i = Some v.
Proof.
  intros Hv. unfold first_index.
  destruct (list_find_elem_of (fun b => b = v) l v Hv eq_refl) as [[i w] Hf].
  rewrite Hf. cbn. exists i. split; [ reflexivity | ].
  apply list_find_Some in Hf as (Hi & -> & _). exact Hi.
Qed.

Lemma take_first_indices (l c : list mode) :
  (forall v, v ∈ c -> v ∈ l) ->
  take l (omap (fun v => first_index v l) c) = Ok c /\
  length (omap (fun v => first_index v l) c) = length c.
Proof.
  induction c as [ | v c IH ]; intros Hc; [ now split | ].
  destruct (first_index_elem v l) as (i & Hi & Hl); [ apply Hc, list_elem_of_here | ].
  destruct IH as [IHt IHl]; [ intros w Hw; apply Hc; now apply list_elem_of_further | ].
  cbn [omap list_omap]. rewrite Hi. cbn [length]. split; [ | now rewrite IHl ].
  unfold take in *. rewrite mapM_cons, IHt.
  unfold item. rewrite norm_index_of_nat by (eapply lookup_lt_Some, Hl).
  rewrite bind_Ok, Hl. reflexivity.
Qed.

Lemma intersect1d_spec (ar1 ar2 : list mode) :
  match intersect1d ar1 ar2 with
  | (common, idx, modes_idx) =>
      take ar1 idx = Ok common /\ take ar2 modes_idx = Ok common /\
      length idx = length common /\ length modes_idx = length common
  end.
Proof.
  unfold intersect1d.
  set (common := filter (fun v => v ∈ ar2) (np_unique ar1)).
  destruct (take_first_indices ar1 common) as [H1 L1].
  { intros v Hv. apply list_elem_of_filter in Hv as [_ Hv]. now apply np_unique_elem. }
  destruct (take_first_indices ar2 common) as [H2 L2].
  { intros v Hv. now apply list_elem_of_filter in Hv as [Hv _]. }
  auto.
Qed.

(** *** [FixBoundaryR.build] *)

Section BoundaryBuild.
Context {T : Type} `{Scalar T} `{Collaborators T}.

(** What [build] leaves behind when [fixed_boundary] is off. *)
Lemma FixBoundaryR_build_free (eq : Equilibrium T) (self self' : Objective T) :
  base_build_keeps ->
  _fixed_boundary self = false ->
  FixBoundaryR_build eq self = (self', Ok tt) ->
  let idx := FixBoundaryR_idx eq (_modes self) in
  exists A t',
    eye_take (num_modes (R_basis (surface eq))) idx = Ok A /\
    _A self' = Some A /\
    _dim_f self' = Some (length idx) /\
    target self' = Some t' /\
    match target self with
    | None => take (R_lmn (surface eq)) idx = Ok t'
    | Some t =>
        exists ms, _modes self = ModesArray ms /\
                   take t (snd (intersect1d (modes (R_basis (surface eq))) ms)) = Ok t'
    end.
Proof.
  intros Hframe Hfb. unfold FixBoundaryR_build, FixBoundaryR_idx.
  unfold mbind, mret, method_bind, method_ret, gets, lift, raise, assign.
  cbn -[intersect1d take eye_take arange num_modes].
  destruct (_modes self) eqn:Hsel; cbn -[intersect1d take eye_take arange num_modes];
  repeat (match goal with
          | |- context [match target self with _ => _ end] => destruct (target self) eqn:?
          | |- context [match intersect1d ?a ?b with _ => _ end] => destruct (intersect1d a b) as [[? ?] ?] eqn:?
          | |- context [match take ?a ?b with _ => _ end] => destruct (take a b) eqn:?
          | |- context [match eye_take ?a ?b with _ => _ end] => destruct (eye_take a b) eqn:?
          | |- context [if _normalize self then _ else _] => destruct (_normalize self) eqn:?
          | |- context [match compute_scaling_factors eq !! "a" with _ => _ end] => destruct (compute_scaling_factors eq !! "a") eqn:?
          | |- context [_fixed_boundary self] => rewrite Hfb
          end; cbn -[intersect1d take eye_take arange num_modes]); try discriminate.
  all: intros Hb.
  all: match goal with Hb' : Objective_build ?e ?s = _ |- _ =>
         pose proof (Hframe e s) as Hk end.
  all: cbv zeta in Hk; rewrite Hb in Hk; destruct Hk as (Kt & KA & Ki & Kd).
  all: cbn in Kt, KA, Ki, Kd.
  all: match goal with
       | KA' : _A ?s = Some ?A, Kt' : target ?s = Some ?t |- _ => exists A, t
       end.
  all: repeat apply conj; try assumption; try reflexivity.
  all: eexists; split; [ reflexivity | ].
  all: match goal with Hi : intersect1d _ _ = _ |- _ => rewrite Hi end; cbn [snd].
  all: congruence.
Qed.


Lemma length_mapM {A B : Type} (f : A -> result B) (l : list A) (r : list B) :
  mapM f l = Ok r -> length r = length l.
Proof.
  revert r. induction l as [ | a l IH ]; intros r.
  - now intros [= <-].
  - rewrite mapM_cons. destruct (f a) as [b | e]; [ | discriminate ].
    rewrite bind_Ok. destruct (mapM f l) as [bs | e]; [ | discriminate ].
    rewrite bind_Ok. intros [= <-]. cbn. f_equal. now apply IH.
Qed.

Lemma length_take {A : Type} (x : list A) (idx : list Z) (t : list A) :
  take x idx = Ok t -> length t = length idx.
Proof. apply length_mapM. Qed.

Lemma eye_take_shape (n : nat) (idx : list Z) (A : matrix T) :
  eye_take n idx = Ok A -> ncols A = n /\ length (rows A) = length idx.
Proof.
  unfold eye_take. destruct (mapM _ idx) as [rs | e] eqn:E; [ | discriminate ].
  rewrite bind_Ok. intros [= <-]. cbn. split; [ reflexivity | ].
  eapply length_mapM, E.
Qed.

Lemma length_set_entries (A : matrix T) (js : list nat) (i : nat) (v : T) :
  length (rows (set_entries A js i v)) = length (rows A).
Proof.
  cbn. generalize (rows A). induction js as [ | j js IH ]; intros rs; [ reflexivity | ].
  cbn. rewrite IH. apply length_alter.
Qed.

(** The loop of the fixed-boundary branch assigns [_A] only, and keeps its
    shape. *)
Lemma FixBoundaryR_fill_frame (eq : Equilibrium T) (rows : list (list Z))
    (basis_modes : list mode) (i : nat) (self : Objective T) :
  let self' := fst (FixBoundaryR_fill eq rows i basis_modes self) in
  target self' = target self /\ _dim_f self' = _dim_f self /\
  _normalize self' = _normalize self /\
  forall A, _A self = Some A ->
    exists A', _A self' = Some A' /\
               length (LinearObjectives.rows A') = length (LinearObjectives.rows A) /\
               ncols A' = ncols A.
Proof.
  revert i self. induction basis_modes as [ | [[l m] n] rest IH ]; intros i self.
  - cbn. repeat split; eauto.
  - cbn [FixBoundaryR_fill]. run_method.
    destruct (String.eqb (bdry_mode eq) "lcfs"); cbn.
    + destruct (argwhere_mn rows m n) as [j | e]; cbn; [ | repeat split; eauto ].
      destruct (_A self) as [A | ] eqn:EA; cbn; [ | repeat split; eauto; discriminate ].
      match goal with |- context [FixBoundaryR_fill eq rows (S i) rest ?s] =>
        specialize (IH (S i) s); destruct (FixBoundaryR_fill eq rows (S i) rest s) as [s' r]
      end.
      cbn in IH. destruct IH as (Ht & Hd & Hn & HA).
      assert (Hs' : target s' = target self /\ _dim_f s' = _dim_f self /\
                    _normalize s' = _normalize self /\
                    forall A0, Some A = Some A0 ->
                      exists A', _A s' = Some A' /\
                        length (LinearObjectives.rows A') = length (LinearObjectives.rows A0) /\
                        ncols A' = ncols A0).
      { repeat split; try assumption. intros A0 [= <-].
        destruct (HA _ eq_refl) as (A' & HA' & Hl & Hc). exists A'.
        rewrite length_set_entries in Hl. auto. }
      now destruct r.
    + specialize (IH (S i) self).
      destruct (FixBoundaryR_fill eq rows (S i) rest self) as [s' r].
      now destruct r.
Qed.

(** When [bdry_mode] is not ["lcfs"] the loop does nothing. *)
Lemma FixBoundaryR_fill_idle (eq : Equilibrium T) (rows : list (list Z))
    (basis_modes : list mode) (i : nat) (self : Objective T) :
  String.eqb (bdry_mode eq) "lcfs" = false ->
  FixBoundaryR_fill eq rows i basis_modes self = (self, Ok tt).
Proof.
  intros Hb. revert i. induction basis_modes as [ | [[l m] n] rest IH ]; intros i.
  - reflexivity.
  - cbn [FixBoundaryR_fill]. rewrite Hb. run_method. apply IH.
Qed.

Lemma FixBoundaryR_build_fixed (eq : Equilibrium T) (self self' : Objective T) :
  base_build_keeps ->
  _fixed_boundary self = true ->
  FixBoundaryR_build eq self = (self', Ok tt) ->
  let idx := FixBoundaryR_idx eq (_modes self) in
  exists A t',
    _A self' = Some A /\
    length (rows A) = length idx /\
    ncols A = num_modes (eq_R_basis eq) /\
    (String.eqb (bdry_mode eq) "lcfs" = false ->
     A = np_zeros (length idx) (num_modes (eq_R_basis eq))) /\
    _dim_f self' = Some (length idx) /\
    target self' = Some t' /\
    length t' = length idx.
Proof.
  intros Hframe Hfb. unfold FixBoundaryR_build, FixBoundaryR_idx.
  unfold mbind, mret, method_bind, method_ret, gets, lift, raise, assign.
  cbn -[intersect1d take eye_take arange num_modes FixBoundaryR_fill np_zeros].
  destruct (_modes self) eqn:Hsel;
    cbn -[intersect1d take eye_take arange num_modes FixBoundaryR_fill np_zeros];
  repeat (match goal with
          | |- context [match target self with _ => _ end] => destruct (target self) eqn:?
          | |- context [match intersect1d ?a ?b with _ => _ end] =>
              pose proof (intersect1d_spec a b);
              destruct (intersect1d a b) as [[? ?] ?] eqn:?
          | |- context [match take ?a ?b with _ => _ end] => destruct (take a b) eqn:?
          | |- context [FixBoundaryR_fill ?e ?r ?i ?b ?s] =>
              pose proof (FixBoundaryR_fill_frame e r b i s);
              pose proof (FixBoundaryR_fill_idle e r b i s);
              destruct (FixBoundaryR_fill e r i b s) as [? []] eqn:?
          | Hf : let _ := _ in _ |- _ =>
              cbv zeta in Hf;
              cbn -[intersect1d take eye_take arange num_modes FixBoundaryR_fill np_zeros] in Hf;
              destruct Hf as (Ft & Fd & Fn & FA);
              specialize (FA _ eq_refl); destruct FA as (? & FA & Fl & Fc);
              rewrite ?Ft
          | Hx : target ?s = _ |- context [match target ?s with _ => _ end] => rewrite Hx
          | |- context [if _normalize ?s then _ else _] => destruct (_normalize s) eqn:?
          | |- context [match compute_scaling_factors eq !! "a" with _ => _ end] =>
              destruct (compute_scaling_factors eq !! "a") eqn:?
          | |- context [_fixed_boundary self] => rewrite Hfb
          end;
          cbn -[intersect1d take eye_take arange num_modes FixBoundaryR_fill np_zeros]);
    try discriminate.
  all: intros Hb.
  all: match goal with Hb' : Objective_build ?e ?s = _ |- _ =>
         pose proof (Hframe e s) as Hk end.
  all: cbv zeta in Hk; rewrite Hb in Hk; destruct Hk as (Kt & KA & Ki & Kd).
  all: cbn -[np_zeros] in Kt, KA, Ki, Kd.
  all: rewrite ?Ft, ?Fd, ?FA in *.
  all: match goal with
       | KA' : _A ?s = Some ?A, Kt' : target ?s = Some ?t |- _ => exists A, t
       end.
  all: repeat apply conj; try assumption.
  all: try (rewrite Fl; cbn; apply length_replicate).
  all: try (rewrite Fc; reflexivity).
  all: try (intros Hl;
            match goal with
            | Hidle : _ = false -> (_, _) = (_, _) |- _ =>
                specialize (Hidle Hl); injection Hidle as Ho; subst; cbn in FA; congruence
            end).
  all: try (erewrite length_take by eassumption; reflexivity).
  all: try match goal with
       | Hs : _ /\ _ /\ length ?i = length ?c /\ length ?m = length ?c |- _ =>
           destruct Hs as (_ & _ & Hs1 & Hs2);
           erewrite length_take by eassumption; congruence
       end.
Qed.


(** X5: [FixBoundaryR.build] with [modes=None] and a [target] fails
    with [UnboundLocalError] (the name [modes_idx] was never bound):
    [_dim_f] is 0 by then, [_A] is not assigned and [target] is as
    given. *)
Theorem FixBoundaryR_build_modes_none (eq : Equilibrium T) (self : Objective T)
    (t : list T) :
  target self = Some t ->
  _modes self = ModesNone ->
  snd (FixBoundaryR_build eq self) = Raise UnboundLocalError /\
  _dim_f (fst (FixBoundaryR_build eq self)) = Some 0%nat /\
  _A (fst (FixBoundaryR_build eq self)) = _A self /\
  target (fst (FixBoundaryR_build eq self)) = Some t.
Proof.
  intros Ht Hm. unfold FixBoundaryR_build. run_method.
  rewrite Hm. cbn. rewrite Ht. cbn. repeat split. exact Ht.
Qed.

(** X7: after a [FixBoundaryR.build] that returns, the rows of [_A],
    the entries of [target] and [_dim_f] all number the selected modes,
    with or without [fixed_boundary]. *)
Theorem FixBoundaryR_build_dimensions (eq : Equilibrium T) (self self' : Objective T) :
  base_build_keeps ->
  FixBoundaryR_build eq self = (self', Ok tt) ->
  exists A t n,
    _A self' = Some A /\ target self' = Some t /\ _dim_f self' = Some n /\
    length (rows A) = n /\ length t = n /\
    n = length (FixBoundaryR_idx eq (_modes self)).
Proof.
  intros Hframe Hbuild. destruct (_fixed_boundary self) eqn:Hfb.
  - destruct (FixBoundaryR_build_fixed eq self self' Hframe Hfb Hbuild)
      as (A & t & HA & Hrows & _ & _ & Hd & Ht & Hlen).
    exists A, t, (length (FixBoundaryR_idx eq (_modes self))). auto 10.
  - destruct (FixBoundaryR_build_free eq self self' Hframe Hfb Hbuild)
      as (A & t & Heye & HA & Hd & Ht & Htgt).
    exists A, t, (length (FixBoundaryR_idx eq (_modes self))).
    apply eye_take_shape in Heye as [_ Hrows].
    repeat split; try assumption.
    destruct (target self) as [t0 | ].
    + destruct Htgt as (ms & Hms & Htake).
      apply length_take in Htake. rewrite Htake, Hms. cbn [FixBoundaryR_idx].
      pose proof (intersect1d_spec (modes (R_basis (surface eq))) ms) as Hs.
      destruct (intersect1d _ ms) as [[c i] mi]. cbn.
      destruct Hs as (_ & _ & H1 & H2). congruence.
    + now apply length_take in Htgt.
Qed.


End BoundaryBuild.

Lemma FixBoundaryR_build_modes_none_witness :
  snd (FixBoundaryR_build Sample.eq Cases.unset) = Raise UnboundLocalError /\
  _dim_f (fst (FixBoundaryR_build Sample.eq Cases.unset)) = Some 0%nat /\
  _A (fst (FixBoundaryR_build Sample.eq Cases.unset)) = None /\
  target (fst (FixBoundaryR_build Sample.eq Cases.unset)) = Some [5].
Proof.
  exact (FixBoundaryR_build_modes_none Sample.eq Cases.unset [5] eq_refl eq_refl).
Defined.

Lemma base_build_keeps_sample : base_build_keeps (T := Z).
Proof. intros eq self. repeat split. Defined.

Lemma FixBoundaryR_build_dimensions_witness :
  base_build_keeps (T := Z) /\
  exists A t n,
    _A (fst (FixBoundaryR_build Sample.eq Sample.chosen)) = Some A /\
    target (fst (FixBoundaryR_build Sample.eq Sample.chosen)) = Some t /\
    _dim_f (fst (FixBoundaryR_build Sample.eq Sample.chosen)) = Some n /\
    length (rows A) = n /\ length t = n /\
    n = length (FixBoundaryR_idx Sample.eq (_modes Sample.chosen)).
Proof.
  split; [ exact base_build_keeps_sample | ].
  exact (FixBoundaryR_build_dimensions Sample.eq Sample.chosen
           (fst (FixBoundaryR_build Sample.eq Sample.chosen))
           base_build_keeps_sample eq_refl).
Defined.

Section BoundaryCompute.
Context {T : Type} {ST : Scalar T} `{Collaborators T}.
Hypothesis Tring : ring_theory zero one add mul sub opp (@eq T).
Add Ring BoundaryRing : Tring.

(** X6: without [fixed_boundary] and without a [target],
    [FixBoundaryR.build] takes the target from the surface, and
    [compute] on the surface's own [R_lmn] returns exactly that
    target. *)
Theorem FixBoundaryR_default_target_met (eq : Equilibrium T) (self self' : Objective T) :
  base_build_keeps ->
  _fixed_boundary self = false ->
  target self = None ->
  length (R_lmn (surface eq)) = num_modes (R_basis (surface eq)) ->
  FixBoundaryR_build eq self = (self', Ok tt) ->
  exists t, target self' = Some t /\
            compute FixBoundaryR (R_lmn (surface eq)) self' = (self', Ok t).
Proof.
  intros Hframe Hfb Htgt Hlen Hbuild.
  destruct (FixBoundaryR_build_free eq self self' Hframe Hfb Hbuild)
    as (A & t & Heye & HA & _ & Ht & Htake).
  rewrite Htgt in Htake. exists t. split; [ exact Ht | ].
  rewrite compute_run, HA. cbn. f_equal.
  rewrite <- Htake, (take_eye Tring), Hlen, Heye. reflexivity.
Qed.

Lemma dotv_zeros (n : nat) (x : list T) : dotv (replicate n zero) x = zero.
Proof.
  revert x. induction n as [ | n IH ]; intros [ | v x ]; cbn; try reflexivity.
  rewrite IH. ring.
Qed.

(** X8: with [fixed_boundary] on an equilibrium whose [bdry_mode] is
    not ["lcfs"], [FixBoundaryR.build] leaves [_A] all zero, so
    [compute] returns zeros whatever the argument. *)
Theorem FixBoundaryR_build_not_lcfs (eq : Equilibrium T) (self self' : Objective T)
    (x : list T) :
  base_build_keeps ->
  _fixed_boundary self = true ->
  String.eqb (bdry_mode eq) "lcfs" = false ->
  length x = num_modes (eq_R_basis eq) ->
  FixBoundaryR_build eq self = (self', Ok tt) ->
  exists n, _dim_f self' = Some n /\
            _A self' = Some (np_zeros n (num_modes (eq_R_basis eq))) /\
            compute FixBoundaryR x self' = (self', Ok (replicate n zero)).
Proof.
  intros Hframe Hfb Hl Hlen Hbuild.
  destruct (FixBoundaryR_build_fixed eq self self' Hframe Hfb Hbuild)
    as (A & t & HA & _ & _ & Hz & Hd & _).
  rewrite (Hz Hl) in HA.
  exists (length (FixBoundaryR_idx eq (_modes self))). split; [ exact Hd | ].
  split; [ exact HA | ].
  rewrite compute_run, HA. cbn. unfold dot. cbn [ncols np_zeros rows].
  rewrite Hlen, Nat.eqb_refl. do 2 f_equal.
  generalize (length (FixBoundaryR_idx eq (_modes self))).
  clear - Tring. intros k. induction k as [ | k IH ]; [ reflexivity | ].
  cbn. rewrite dotv_zeros. f_equal. exact IH.
Qed.


End BoundaryCompute.

Lemma FixBoundaryR_default_target_met_witness :
  base_build_keeps (T := Z) /\
  exists t,
    target (fst (FixBoundaryR_build Sample.eq Sample.plain)) = Some t /\
    compute FixBoundaryR (R_lmn (surface Sample.eq))
      (fst (FixBoundaryR_build Sample.eq Sample.plain)) =
    (fst (FixBoundaryR_build Sample.eq Sample.plain), Ok t).
Proof.
  split; [ exact base_build_keeps_sample | ].
  exact (@FixBoundaryR_default_target_met Z Z_Scalar Sample.collaborators
           InitialRing.Zth Sample.eq Sample.plain
           (fst (FixBoundaryR_build Sample.eq Sample.plain))
           base_build_keeps_sample eq_refl eq_refl eq_refl eq_refl).
Defined.

Lemma FixBoundaryR_build_not_lcfs_witness :
  base_build_keeps (T := Z) /\
  exists n,
    _dim_f (fst (FixBoundaryR_build Cases.eq_poincare Sample.chosen)) = Some n /\
    _A (fst (FixBoundaryR_build Cases.eq_poincare Sample.chosen)) =
      Some (np_zeros n 3) /\
    compute FixBoundaryR [4; 5; 6]
      (fst (FixBoundaryR_build Cases.eq_poincare Sample.chosen)) =
    (fst (FixBoundaryR_build Cases.eq_poincare Sample.chosen),
     Ok (replicate n 0)).
Proof.
  split; [ exact base_build_keeps_sample | ].
  exact (@FixBoundaryR_build_not_lcfs Z Z_Scalar Sample.collaborators
           InitialRing.Zth Cases.eq_poincare Sample.chosen
           (fst (FixBoundaryR_build Cases.eq_poincare Sample.chosen)) [4; 5; 6]
           base_build_keeps_sample eq_refl eq_refl eq_refl eq_refl).
Defined.


(** *** Slices [x[arange(n)]] *)




Section AngleAndFlux.
Context {T : Type} `{Scalar T} `{Collaborators T}.


(** X11: when [FixPsi.build] returns, [_dim_f] is 1 and [target] is the
    one given, or [eq.Psi] when none was given; in that case
    [compute(eq.Psi)] returns the target. *)
Theorem FixPsi_build_target (eq : Equilibrium T) (self self' : Objective T) :
  base_build_keeps ->
  FixPsi_build eq self = (self', Ok tt) ->
  _dim_f self' = Some 1%nat /\
  target self' = Some (default [Psi eq] (target self)) /\
  (target self = None ->
   FixPsi_compute [Psi eq] self' = (self', Ok [Psi eq])).
Proof.
  intros Hframe. unfold FixPsi_build. run_method.
  destruct (target self) as [t | ] eqn:Ht; cbn;
    destruct (_normalize self); cbn;
    try (destruct (compute_scaling_factors eq !! "Psi"); cbn; [ | discriminate ]);
    match goal with
    | |- context [Objective_build eq ?s] =>
        destruct (Hframe eq s) as (Kt & _ & _ & Kd);
        destruct (Objective_build eq s) as [s' r] eqn:E
    end;
    cbn in Kt, Kd; destruct r; intros [= <- ]; cbn [default];
    repeat split; try assumption; try discriminate;
    try (now rewrite Kt, Ht).
Qed.

End AngleAndFlux.



Lemma FixPsi_build_target_witness :
  base_build_keeps (T := Z) /\
  _dim_f (fst (FixPsi_build Sample.eq Sample.plain)) = Some 1%nat /\
  target (fst (FixPsi_build Sample.eq Sample.plain)) = Some [1] /\
  (target Sample.plain = None ->
   FixPsi_compute [1] (fst (FixPsi_build Sample.eq Sample.plain)) =
   (fst (FixPsi_build Sample.eq Sample.plain), Ok [1])).
Proof.
  split; [ exact base_build_keeps_sample | ].
  exact (FixPsi_build_target Sample.eq Sample.plain
           (fst (FixPsi_build Sample.eq Sample.plain))
           base_build_keeps_sample eq_refl).
Defined.

(** *** [FixModeR] *)

Section ModeBuild.
Context {T : Type} `{Scalar T} `{Collaborators T}.

(** X12: [FixModeR.build] with [modes=True] on an instance that has no
    [_idx] never returns: without a [target] it raises [AttributeError]
    (the branch for all modes does not assign [self._idx]), with a
    [target] it raises [RuntimeError]; [_idx] stays unassigned. *)
Theorem FixModeR_build_all_modes (eq : EquilibriumMore T) (self : Objective T) :
  _modes self = ModesTrue ->
  _idx self = None ->
  snd (FixModeR_build eq self) =
    Raise (match target self with Some _ => RuntimeError | None => AttributeError end) /\
  _idx (fst (FixModeR_build eq self)) = None /\
  target (fst (FixModeR_build eq self)) = target self.
Proof.
  intros Hm Hi. unfold FixModeR_build. run_method.
  rewrite Hm. cbn. destruct (target self) as [t | ] eqn:Ht; cbn.
  - repeat split; assumption.
  - rewrite Hi. cbn. repeat split; assumption.
Qed.

(** X13: when [FixModeR.build] returns for specified modes, [_idx] holds
    the positions of the given modes in the basis, in the order of the
    basis, and [_dim_f] and the length of [target] are their number.  A
    given target is reordered to [target[modes_idx]]; without one the
    target is [eq.R_lmn[idx]], which [compute(eq.R_lmn)] returns. *)
Theorem FixModeR_build_modes_array (eq : EquilibriumMore T)
    (self self' : Objective T) (ms : list mode) :
  base_build_keeps ->
  _modes self = ModesArray ms ->
  FixModeR_build eq self = (self', Ok tt) ->
  exists common idx modes_idx t',
    intersect1d (modes (eq_R_basis (equilibrium eq))) ms = (common, idx, modes_idx) /\
    take (modes (eq_R_basis (equilibrium eq))) idx = Ok common /\
    take ms modes_idx = Ok common /\
    _idx self' = Some idx /\
    _dim_f self' = Some (length idx) /\
    target self' = Some t' /\
    length t' = length idx /\
    match target self with
    | None => take (eq_R_lmn eq) idx = Ok t' /\
              compute FixModeR (eq_R_lmn eq) self' = (self', Ok t')
    | Some t => take t modes_idx = Ok t'
    end.
Proof.
  intros Hframe Hm.
  unfold FixModeR_build, mbind, mret, method_bind, method_ret, gets, lift, raise, assign.
  cbn -[intersect1d take]. rewrite Hm.
  pose proof (intersect1d_spec (modes (eq_R_basis (equilibrium eq))) ms) as Hs.
  destruct (intersect1d _ ms) as [[c i] mi]. cbn [fst snd] in Hs.
  destruct Hs as (H1 & H2 & H3 & H4). cbn -[take].
  destruct (target self) as [t | ] eqn:Ht; cbn -[take].
  - destruct (take t mi) as [t' | e] eqn:Et; cbn -[take]; [ | discriminate ].
    match goal with
    | |- context [Objective_build ?e ?s] =>
        destruct (Hframe e s) as (Kt & _ & Ki & Kd);
        destruct (Objective_build e s) as [s' r] eqn:E
    end.
    cbn in Kt, Ki, Kd. destruct r; intros [= <- ].
    exists c, i, mi, t'. repeat split; try assumption.
    + rewrite Kd. f_equal. congruence.
    + apply length_take in Et. congruence.
  - destruct (take (eq_R_lmn eq) i) as [t' | e] eqn:Et; cbn -[take]; [ | discriminate ].
    match goal with
    | |- context [Objective_build ?e ?s] =>
        destruct (Hframe e s) as (Kt & _ & Ki & Kd);
        destruct (Objective_build e s) as [s' r] eqn:E
    end.
    cbn in Kt, Ki, Kd. destruct r; intros [= <- ].
    exists c, i, mi, t'. repeat split; try assumption.
    + rewrite Kd. f_equal. congruence.
    + now apply length_take in Et.
    + unfold FixModeR_compute. rewrite take_idx_run, Ki. cbn -[take]. now rewrite Et.
Qed.

End ModeBuild.

Lemma FixModeR_build_all_modes_witness :
  snd (FixModeR_build Cases.eq_more Sample.plain) = Raise AttributeError /\
  _idx (fst (FixModeR_build Cases.eq_more Sample.plain)) = None /\
  target (fst (FixModeR_build Cases.eq_more Sample.plain)) = None.
Proof.
  exact (FixModeR_build_all_modes Cases.eq_more Sample.plain eq_refl eq_refl).
Defined.

Lemma FixModeR_build_modes_array_witness :
  base_build_keeps (T := Z) /\
  exists common idx modes_idx t',
    intersect1d (modes Sample.basis) [(2, 0, 0); (0, 0, 0)] =
      (common, idx, modes_idx) /\
    take (modes Sample.basis) idx = Ok common /\
    take [(2, 0, 0); (0, 0, 0)] modes_idx = Ok common /\
    _idx (fst (FixModeR_build Cases.eq_more Cases.picked)) = Some idx /\
    _dim_f (fst (FixModeR_build Cases.eq_more Cases.picked)) = Some (length idx) /\
    target (fst (FixModeR_build Cases.eq_more Cases.picked)) = Some t' /\
    length t' = length idx /\
    take [7; 8] modes_idx = Ok t'.
Proof.
  split; [ exact base_build_keeps_sample | ].
  exact (FixModeR_build_modes_array Cases.eq_more Cases.picked
           (fst (FixModeR_build Cases.eq_more Cases.picked))
           [(2, 0, 0); (0, 0, 0)] base_build_keeps_sample eq_refl eq_refl).
Defined.

(** *** The profile objectives *)

(** Run a method body of a profile objective on an instance. *)
Ltac run_pmethod :=
  unfold mbind, mret, pmethod_bind, pmethod_ret, pgets, plift, praise, passign,
    on_objective, method_bind, method_ret, gets, lift, raise, assign.

Section ProfileBuild.
Context {T : Type} `{Scalar T} `{Collaborators T}.

Lemma FixProfile_build_run (eq : EquilibriumMore T) (profile : option (Profile T))
    (self self' : FixProfile T) :
  base_build_keeps ->
  _FixProfile_build eq profile self = (self', Ok tt) ->
  _profile self' = profile_in_use eq profile self /\
  _indices self' = _indices self /\
  exists idx t,
    _idx (objective self') = Some idx /\
    _dim_f (objective self') = Some (length idx) /\
    target (objective self') = Some t /\
    match _indices self with
    | IndicesTrue => exists p, profile_in_use eq profile self = Some p /\
                               idx = arange (length (params p))
    | IndicesArray ix => idx = ix
    | _ => idx = []
    end /\
    match target (objective self) with
    | Some t0 => t = t0
    | None => exists p, profile_in_use eq profile self = Some p /\
                        take (params p) idx = Ok t
    end.
Proof.
  intros Hframe. unfold _FixProfile_build, profile_in_use.
  destruct self as [o own ind]. run_pmethod. cbn -[take arange].
  destruct own as [p | ].
  all: try destruct (Nat.eqb (length (params p)) (eq_L eq + 1)) eqn:El.
  all: cbn -[take arange].
  all: destruct ind; cbn -[take arange].
  all: try (destruct profile as [p' | ]; cbn -[take arange]; [ | discriminate ]).
  all: destruct (target o) as [t0 | ] eqn:Et; cbn -[take arange].
  all: try rewrite Et; cbn -[take arange].
  all: try (destruct profile as [p'' | ]; cbn -[take arange]; [ | discriminate ]).
  all: try match goal with
           | |- context [take ?x ?i] =>
               destruct (take x i) as [tt' | ] eqn:Etake; cbn -[take arange]; [ | discriminate ]
           end.
  all: try discriminate.
  all: match goal with
       | |- context [Objective_build ?e ?s] =>
           destruct (Hframe e s) as (Kt & _ & Ki & Kd);
           destruct (Objective_build e s) as [s' r] eqn:E
       end.
  all: cbn -[take arange] in Kt, Ki, Kd; destruct r; intros [= <- ]; cbn -[take arange].
  all: repeat split; try assumption; try reflexivity.
  all: eexists _, _; repeat split; try eassumption; try reflexivity.
  all: try (rewrite Kt; eassumption).
  all: try (eexists; split; [ reflexivity | ]; try reflexivity; eassumption).
Qed.

Lemma set_scale_run (eq : EquilibriumMore T) (key : string)
    (self self' : FixProfile T) (r : result unit) :
  set_scale eq key self = (self', r) ->
  _profile self' = _profile self /\ _indices self' = _indices self /\
  target (objective self') = target (objective self).
Proof.
  unfold set_scale. run_pmethod. cbn.
  destruct (_normalize (objective self)); cbn.
  - destruct (compute_scaling_factors (equilibrium eq) !! key); cbn;
      intros [= <- <-]; repeat split.
  - intros [= <- <-]. repeat split.
Qed.

Lemma profile_build_run (cls : objective_class)
    (build : EquilibriumMore T -> pmethod T unit)
    (attr : EquilibriumMore T -> option (Profile T))
    (eq : EquilibriumMore T) (self self' : FixProfile T) :
  (cls, build, attr) ∈ profile_objectives ->
  build eq self = (self', Ok tt) ->
  exists p self1,
    attr eq = Some p /\
    _profile self1 = _profile self /\ _indices self1 = _indices self /\
    target (objective self1) = target (objective self) /\
    _FixProfile_build eq (Some p) self1 = (self', Ok tt).
Proof.
  unfold profile_objectives. rewrite !elem_of_cons, elem_of_nil.
  intros Hin Hb.
  repeat match type of Hin with
         | _ \/ _ => destruct Hin as [Hin | Hin]
         end; try contradiction; injection Hin as -> -> ->.
  all: revert Hb.
  all: unfold FixPressure_build, FixIota_build, FixCurrent_build,
         FixElectronTemperature_build, FixElectronDensity_build,
         FixIonTemperature_build, FixAtomicNumber_build.
  all: match goal with
       | |- context [match ?a ?e with _ => _ end] =>
           destruct (a e) as [p | ] eqn:Ea; [ | discriminate ]
       end.
  all: try match goal with
           | |- _FixProfile_build _ (Some ?q) ?s = _ -> _ =>
               intros Hb; exists q, s; repeat split; assumption
           end.
  all: unfold mbind at 1, pmethod_bind at 1.
  all: match goal with
       | |- context [set_scale ?e ?k ?s] =>
           destruct (set_scale e k s) as [s1 r1] eqn:Es;
           apply set_scale_run in Es as (E1 & E2 & E3)
       end.
  all: destruct r1 as [ [] | ]; [ | discriminate ].
  all: match goal with
       | |- _FixProfile_build _ (Some ?q) ?s = _ -> _ =>
           intros Hb; exists q, s; repeat split; assumption
       end.
Qed.

Lemma profile_in_use_ext (eq : EquilibriumMore T) (profile : option (Profile T))
    (self self1 : FixProfile T) :
  _profile self1 = _profile self ->
  profile_in_use eq profile self1 = profile_in_use eq profile self.
Proof. unfold profile_in_use. now intros ->. Qed.

Lemma profile_compute_run (cls : objective_class)
    (build : EquilibriumMore T -> pmethod T unit)
    (attr : EquilibriumMore T -> option (Profile T))
    (x : list T) (self : FixProfile T) :
  (cls, build, attr) ∈ profile_objectives ->
  on_objective (compute cls x) self =
  (self, idx ← getattr (_idx (objective self)); take x idx).
Proof.
  unfold profile_objectives. rewrite !elem_of_cons, elem_of_nil.
  intros Hin.
  repeat match type of Hin with
         | _ \/ _ => destruct Hin as [Hin | Hin]
         end; try contradiction; injection Hin as -> -> ->.
  all: unfold on_objective; rewrite compute_run; now destruct self.
Qed.

(** X14: when the [build] of one of the seven profile objectives returns
    for an instance without [target], the equilibrium has the profile,
    the profile in use is the one given to [__init__] if it has
    [eq.L + 1] parameters and the equilibrium's otherwise, and [compute]
    on the parameters of the profile in use returns the target. *)
Theorem profile_build_default_target (cls : objective_class)
    (build : EquilibriumMore T -> pmethod T unit)
    (attr : EquilibriumMore T -> option (Profile T))
    (eq : EquilibriumMore T) (self self' : FixProfile T) :
  base_build_keeps ->
  (cls, build, attr) ∈ profile_objectives ->
  target (objective self) = None ->
  build eq self = (self', Ok tt) ->
  exists p q t,
    attr eq = Some p /\
    profile_in_use eq (Some p) self = Some q /\
    _profile self' = Some q /\
    target (objective self') = Some t /\
    on_objective (compute cls (params q)) self' = (self', Ok t).
Proof.
  intros Hframe Hin Ht Hb.
  destruct (profile_build_run cls build attr eq self self' Hin Hb)
    as (p & s1 & Ha & E1 & E2 & E3 & Hb1).
  destruct (FixProfile_build_run eq (Some p) s1 self' Hframe Hb1)
    as (Kp & _ & idx & t & Ki & _ & Kt & _ & Ktgt).
  rewrite E3, Ht in Ktgt. destruct Ktgt as (q & Hq & Htake).
  rewrite (profile_in_use_ext eq (Some p) self s1 E1) in Kp, Hq.
  exists p, q, t. repeat split; try assumption; try congruence.
  rewrite (profile_compute_run cls build attr _ _ Hin), Ki. cbn -[take].
  now rewrite Htake.
Qed.

(** X15: when the [build] of one of the seven profile objectives returns
    for an instance with a [target], the target is kept as given,
    whatever its length, while [_dim_f] is the number of fixed indices:
    all parameters of the profile in use for [indices=True], the given
    ones for an array, none for [False] and [None]. *)
Theorem profile_build_keeps_target (cls : objective_class)
    (build : EquilibriumMore T -> pmethod T unit)
    (attr : EquilibriumMore T -> option (Profile T))
    (eq : EquilibriumMore T) (self self' : FixProfile T) (t : list T) :
  base_build_keeps ->
  (cls, build, attr) ∈ profile_objectives ->
  target (objective self) = Some t ->
  build eq self = (self', Ok tt) ->
  target (objective self') = Some t /\
  exists p idx,
    attr eq = Some p /\
    _idx (objective self') = Some idx /\
    _dim_f (objective self') = Some (length idx) /\
    match _indices self with
    | IndicesTrue => exists q, profile_in_use eq (Some p) self = Some q /\
                               idx = arange (length (params q))
    | IndicesArray ix => idx = ix
    | _ => idx = []
    end.
Proof.
  intros Hframe Hin Ht Hb.
  destruct (profile_build_run cls build attr eq self self' Hin Hb)
    as (p & s1 & Ha & E1 & E2 & E3 & Hb1).
  destruct (FixProfile_build_run eq (Some p) s1 self' Hframe Hb1)
    as (_ & _ & idx & t' & Ki & Kd & Kt & Kidx & Ktgt).
  rewrite E3, Ht in Ktgt. subst t'.
  rewrite E2, (profile_in_use_ext eq (Some p) self s1 E1) in Kidx.
  split; [ exact Kt | ]. exists p, idx. repeat split; assumption.
Qed.

End ProfileBuild.

Lemma profile_build_default_target_witness :
  base_build_keeps (T := Z) /\
  (FixPressure, FixPressure_build, pressure) ∈ profile_objectives (T := Z) /\
  exists p q t,
    pressure Cases.eq_more = Some p /\
    profile_in_use Cases.eq_more (Some p) Cases.profile_plain = Some q /\
    _profile (fst (FixPressure_build Cases.eq_more Cases.profile_plain)) = Some q /\
    target (objective (fst (FixPressure_build Cases.eq_more Cases.profile_plain))) =
      Some t /\
    on_objective (compute FixPressure (params q))
      (fst (FixPressure_build Cases.eq_more Cases.profile_plain)) =
    (fst (FixPressure_build Cases.eq_more Cases.profile_plain), Ok t).
Proof.
  assert (Hin : (FixPressure, FixPressure_build, pressure)
                  ∈ profile_objectives (T := Z)) by apply list_elem_of_here.
  split; [ exact base_build_keeps_sample | ]. split; [ exact Hin | ].
  exact (profile_build_default_target FixPressure FixPressure_build pressure
           Cases.eq_more Cases.profile_plain
           (fst (FixPressure_build Cases.eq_more Cases.profile_plain))
           base_build_keeps_sample Hin eq_refl eq_refl).
Defined.

Lemma profile_build_keeps_target_witness :
  base_build_keeps (T := Z) /\
  (FixPressure, FixPressure_build, pressure) ∈ profile_objectives (T := Z) /\
  target (objective (fst (FixPressure_build Cases.eq_more Cases.profile_fresh))) =
    Some [5; 6; 7] /\
  exists p idx,
    pressure Cases.eq_more = Some p /\
    _idx (objective (fst (FixPressure_build Cases.eq_more Cases.profile_fresh))) =
      Some idx /\
    _dim_f (objective (fst (FixPressure_build Cases.eq_more Cases.profile_fresh))) =
      Some (length idx) /\
    idx = [0].
Proof.
  assert (Hin : (FixPressure, FixPressure_build, pressure)
                  ∈ profile_objectives (T := Z)) by apply list_elem_of_here.
  split; [ exact base_build_keeps_sample | ]. split; [ exact Hin | ].
  exact (profile_build_keeps_target FixPressure FixPressure_build pressure
           Cases.eq_more Cases.profile_fresh
           (fst (FixPressure_build Cases.eq_more Cases.profile_fresh)) [5; 6; 7]
           base_build_keeps_sample Hin eq_refl eq_refl).
Defined.

(** *** [FixAxisR] *)

Lemma elem_of_argwhere_eq (n : Z) (ns : list Z) (j : nat) :
  j ∈ argwhere_eq n ns <-> ns !! j = Some n.
Proof.
  unfold argwhere_eq. rewrite list_elem_of_fmap. split.
  - intros ([j' v] & -> & Hin). apply list_elem_of_filter in Hin as [Hv Hin].
    cbn in *. apply elem_of_lookup_imap in Hin as (k & w & [= -> ->] & Hk).
    now subst.
  - intros Hj. exists (j, n). split; [ reflexivity | ].
    apply list_elem_of_filter. split; [ reflexivity | ].
    apply elem_of_lookup_imap. now exists j, n.
Qed.

Lemma lookup_set_items {A : Type} (t : list A) (js : list nat) (v : A) (k : nat) :
  set_items t js v !! k =
  if bool_decide (k ∈ js) then (fun _ => v) <$> t !! k else t !! k.
Proof.
  unfold set_items. revert t. induction js as [ | j js IH ]; intros t; cbn.
  - reflexivity.
  - rewrite IH. destruct (decide (k = j)) as [-> | Hne].
    + rewrite (bool_decide_eq_true_2 (j ∈ j :: js)) by apply list_elem_of_here.
      destruct (decide (j < length t)%nat) as [Hlt | Hge].
      * rewrite list_lookup_insert_eq by exact Hlt.
        destruct (lookup_lt_is_Some_2 t j Hlt) as [w ->].
        now destruct (bool_decide (j ∈ js)).
      * rewrite list_insert_ge by lia.
        rewrite (lookup_ge_None_2 t j) by lia.
        now destruct (bool_decide (j ∈ js)).
    + rewrite list_lookup_insert_ne by congruence.
      destruct (decide (k ∈ js)) as [Hin | Hnin].
      * rewrite !bool_decide_eq_true_2; [ reflexivity | | exact Hin ].
        now apply list_elem_of_further.
      * rewrite !bool_decide_eq_false_2; [ reflexivity | | exact Hnin ].
        rewrite elem_of_cons. intros [ | ]; congruence.
Qed.

Lemma length_set_items {A : Type} (t : list A) (js : list nat) (v : A) :
  length (set_items t js v) = length t.
Proof.
  unfold set_items. revert t. induction js as [ | j js IH ]; intros t; cbn.
  - reflexivity.
  - rewrite IH. apply length_insert.
Qed.

Section AxisBuild.
Context {T : Type} `{Scalar T} `{Collaborators T}.

Lemma entry_set_entries (A : matrix T) (js : list nat) (i : nat) (v : T) (j k : nat) :
  entry (set_entries A js i v) j k =
  if bool_decide (j ∈ js) && bool_decide (k = i)
  then (fun _ => v) <$> entry A j k else entry A j k.
Proof.
  unfold entry, set_entries. cbn [rows].
  assert (Hrows : forall rs : list (list T),
             foldl (fun rs j => alter (fun r => <[i := v]> r) j rs) rs js !! j =
             if bool_decide (j ∈ js) then (fun r => <[i := v]> r) <$> rs !! j
             else rs !! j).
  { induction js as [ | j0 js IH ]; intros rs; cbn; [ reflexivity | ].
    rewrite IH, list_lookup_alter.
    destruct (decide (j0 = j)) as [-> | Hne].
    - rewrite (bool_decide_eq_true_2 (j ∈ j :: js)) by apply list_elem_of_here.
      destruct (bool_decide (j ∈ js)); [ | reflexivity ].
      destruct (rs !! j) as [r | ]; cbn; [ | reflexivity ].
      f_equal. apply list_insert_insert_eq.
    - destruct (decide (j ∈ js)) as [Hin | Hnin].
      + rewrite !bool_decide_eq_true_2; [ reflexivity | | exact Hin ].
        now apply list_elem_of_further.
      + rewrite !bool_decide_eq_false_2; [ reflexivity | | exact Hnin ].
        rewrite elem_of_cons. intros [ | ]; congruence. }
  rewrite Hrows. destruct (bool_decide (j ∈ js)); cbn; [ | reflexivity ].
  destruct (rows A !! j) as [r | ]; cbn; [ | now destruct (bool_decide (k = i)) ].
  destruct (decide (k = i)) as [-> | Hne].
  - rewrite bool_decide_eq_true_2 by reflexivity.
    destruct (decide (i < length r)%nat) as [Hlt | Hge].
    + rewrite list_lookup_insert_eq by exact Hlt.
      now destruct (lookup_lt_is_Some_2 r i Hlt) as [w ->].
    + rewrite list_insert_ge by lia. now rewrite (lookup_ge_None_2 r i) by lia.
  - rewrite bool_decide_eq_false_2 by exact Hne.
    now rewrite list_lookup_insert_ne by congruence.
Qed.

Lemma entry_np_zeros (m n j k : nat) :
  entry (np_zeros m n : matrix T) j k =
  if bool_decide (j < m)%nat && bool_decide (k < n)%nat then Some zero else None.
Proof.
  unfold entry, np_zeros. cbn [rows].
  destruct (decide (j < m)%nat) as [Hj | Hj].
  - rewrite lookup_replicate_2 by exact Hj. cbn.
    rewrite (bool_decide_eq_true_2 _ Hj). cbn.
    destruct (decide (k < n)%nat) as [Hk | Hk].
    + rewrite lookup_replicate_2 by exact Hk. now rewrite bool_decide_eq_true_2.
    + rewrite (lookup_ge_None_2 _ k) by (rewrite length_replicate; lia).
      now rewrite bool_decide_eq_false_2.
  - rewrite (lookup_ge_None_2 _ j) by (rewrite length_replicate; lia).
    now rewrite bool_decide_eq_false_2.
Qed.

(** The loop over the basis assigns [_A] only, keeps its shape, and
    writes the entries of the columns it visits. *)
Lemma FixAxisR_fill_entries (ns : list Z) (basis_modes : list mode) (i : nat)
    (self : Objective T) (A : matrix T) :
  _A self = Some A ->
  exists self' A',
    FixAxisR_fill ns i basis_modes self = (self', Ok tt) /\
    _A self' = Some A' /\ target self' = target self /\
    _dim_f self' = _dim_f self /\
    length (rows A') = length (rows A) /\ ncols A' = ncols A /\
    forall j k,
      entry A' j k =
      match (if decide (i <= k)%nat then basis_modes !! (k - i)%nat else None) with
      | Some (l, m, n) =>
          if bool_decide (m = 0 /\ ns !! j = Some n)
          then (fun _ => axis_sign l) <$> entry A j k else entry A j k
      | None => entry A j k
      end.
Proof.
  revert i self A. induction basis_modes as [ | [[l m] n] rest IH ]; intros i self A HA.
  - exists self, A. cbn. repeat split; try assumption.
    intros j k. destruct (decide (i <= k)%nat); reflexivity.
  - cbn [FixAxisR_fill]. run_method. destruct (m =? 0) eqn:Em; cbn.
    + apply Z.eqb_eq in Em. subst m. rewrite HA. cbn.
      set (A1 := set_entries A (argwhere_eq n ns) i (axis_sign l)).
      destruct (IH (S i) (set_A A1 self) A1 eq_refl)
        as (s' & A' & Hrun & HA' & Ht & Hd & Hl & Hc & Hent).
      exists s', A'. rewrite Hrun. repeat split; try assumption.
      * rewrite Hl. apply length_set_entries.
      * intros j k. rewrite Hent.
        destruct (decide (S i <= k)%nat) as [Hk | Hk].
        -- destruct (decide (i <= k)%nat); [ | lia ].
           replace (k - i)%nat with (S (k - S i)) by lia. cbn [lookup list_lookup].
           assert (He : entry A1 j k = entry A j k).
           { unfold A1. rewrite entry_set_entries.
             rewrite (bool_decide_eq_false_2 (k = i)) by lia.
             now rewrite andb_false_r. }
           now rewrite He.
        -- unfold A1. rewrite entry_set_entries.
           destruct (decide (i <= k)%nat) as [Hik | Hik].
           ++ assert (k = i) as -> by lia. rewrite Nat.sub_diag. cbn [lookup list_lookup].
              rewrite (bool_decide_eq_true_2 (i = i)) by reflexivity.
              rewrite andb_true_r.
              destruct (decide (ns !! j = Some n)) as [Hn | Hn].
              ** rewrite !bool_decide_eq_true_2; [ reflexivity | now split | ].
                 now apply elem_of_argwhere_eq.
              ** rewrite !bool_decide_eq_false_2; [ reflexivity | now intros [_ ?] | ].
                 now rewrite elem_of_argwhere_eq.
           ++ rewrite (bool_decide_eq_false_2 (k = i)) by lia.
              now rewrite andb_false_r.
    + apply Z.eqb_neq in Em.
      destruct (IH (S i) self A HA)
        as (s' & A' & Hrun & HA' & Ht & Hd & Hl & Hc & Hent).
      exists s', A'. rewrite Hrun. repeat split; try assumption.
      intros j k. rewrite Hent.
      destruct (decide (S i <= k)%nat) as [Hk | Hk].
      * destruct (decide (i <= k)%nat); [ | lia ].
        replace (k - i)%nat with (S (k - S i)) by lia. reflexivity.
      * destruct (decide (i <= k)%nat) as [Hik | Hik]; [ | reflexivity ].
        assert (k = i) as -> by lia. rewrite Nat.sub_diag. cbn [lookup list_lookup].
        rewrite bool_decide_eq_false_2; [ reflexivity | ]. now intros [? _].
Qed.

(** The loop over the axis modes assigns [target] only and keeps its
    length. *)
Lemma FixAxisR_targets_frame (ns : list Z) (pairs : list (Z * T))
    (self : Objective T) (t : list T) :
  target self = Some t ->
  exists self' t',
    FixAxisR_targets ns pairs self = (self', Ok tt) /\
    target self' = Some t' /\ length t' = length t /\
    _A self' = _A self /\ _dim_f self' = _dim_f self.
Proof.
  revert self t. induction pairs as [ | [n Rn] rest IH ]; intros self t Ht.
  - exists self, t. repeat split. exact Ht.
  - cbn [FixAxisR_targets]. run_method. rewrite Ht. cbn.
    destruct (IH (set_target (set_items t (argwhere_eq n ns) Rn) self) _ eq_refl)
      as (s' & t' & Hrun & Ht' & Hl & HA & Hd).
    exists s', t'. rewrite Hrun. repeat split; try assumption.
    rewrite Hl. apply length_set_items.
Qed.

(** When the mode numbers are distinct, the loop writes the coefficients
    in their order. *)
Lemma FixAxisR_targets_distinct (pre post : list Z) (vals : list T)
    (self : Objective T) (t : list T) :
  NoDup (pre ++ post) ->
  length vals = length post ->
  target self = Some t ->
  length t = length (pre ++ post) ->
  target (fst (FixAxisR_targets (pre ++ post) (zip post vals) self)) =
    Some (firstn (length pre) t ++ vals).
Proof.
  revert pre vals self t.
  induction post as [ | n post IH ]; intros pre vals self t Hnd Hlen Ht Hlt.
  - destruct vals; [ | discriminate ]. cbn. rewrite Ht. f_equal.
    rewrite app_nil_r in *. now rewrite firstn_all2 by lia.
  - destruct vals as [ | v vals ]; [ discriminate | ]. cbn [zip zip_with FixAxisR_targets].
    run_method. rewrite Ht. cbn.
    set (t1 := set_items t (argwhere_eq n (pre ++ n :: post)) v).
    assert (Ht1 : t1 = <[length pre := v]> t).
    { apply list_eq. intros k. unfold t1. rewrite lookup_set_items.
      destruct (decide (k = length pre)) as [-> | Hne].
      - rewrite bool_decide_eq_true_2.
        + rewrite length_app in Hlt. cbn in Hlt.
          rewrite list_lookup_insert_eq by lia.
          now destruct (lookup_lt_is_Some_2 t (length pre) ltac:(lia)) as [w ->].
        + apply elem_of_argwhere_eq. now rewrite list_lookup_middle.
      - rewrite bool_decide_eq_false_2.
        + now rewrite list_lookup_insert_ne by congruence.
        + rewrite elem_of_argwhere_eq. intros Hk. apply Hne.
          eapply NoDup_lookup; [ exact Hnd | exact Hk | ].
          now rewrite list_lookup_middle. }
    specialize (IH (pre ++ [n]) vals (set_target t1 self) t1).
    rewrite <- app_assoc in IH. cbn [app] in IH.
    rewrite IH; try assumption; try reflexivity.
    + f_equal. rewrite Ht1, length_app. cbn [length].
      rewrite length_app in Hlt. cbn in Hlt.
      replace (length pre + 1)%nat with (S (length pre)) by lia.
      rewrite (take_S_r _ _ v) by (apply list_lookup_insert_eq; lia).
      rewrite take_insert_ge by lia. now rewrite <- app_assoc.
    + cbn in Hlen. lia.
    + unfold t1. now rewrite length_set_items.
Qed.

Lemma FixAxisR_ns_guard (picked : list mode) :
  (if (0 <? length picked)%nat then mode_n <$> picked else []) = mode_n <$> picked.
Proof. now destruct picked. Qed.


(** What [FixAxisR.build] leaves when it returns. *)
Lemma FixAxisR_build_run (eq : EquilibriumMore T) (self self' : Objective T) :
  base_build_keeps ->
  FixAxisR_build eq self = (self', Ok tt) ->
  let ns := FixAxisR_ns eq (_modes self) in
  let basis_modes := modes (eq_R_basis (equilibrium eq)) in
  exists s0 A t,
    FixAxisR_fill ns 0 basis_modes
      (set_dim_f (length ns)
         (set_A (np_zeros (length ns) (length basis_modes)) self)) = (s0, Ok tt) /\
    _A s0 = Some A /\
    _A self' = Some A /\ _dim_f self' = Some (length ns) /\
    target self' = Some t /\ length t = length ns /\
    (target self = None ->
     target self' =
       target (fst (FixAxisR_targets ns
                      (zip (mode_n <$> modes (axis_R_basis (axis eq))) (R_n (axis eq)))
                      (set_target (replicate (length ns) zero) s0)))).
Proof.
  intros Hframe.
  unfold FixAxisR_build, FixAxisR_ns, mbind, mret, method_bind, method_ret, gets, lift,
    raise, assign.
  cbn -[intersect1d take FixAxisR_fill FixAxisR_targets np_zeros Nat.ltb].
  unfold num_modes.
  destruct (_modes self) as [ | | | ms ] eqn:Hm;
    cbn -[intersect1d take FixAxisR_fill FixAxisR_targets np_zeros Nat.ltb].
  4: { pose proof (intersect1d_spec (modes (axis_R_basis (axis eq))) ms) as Hs.
       destruct (intersect1d (modes (axis_R_basis (axis eq))) ms) as [[c i] mi].
       cbn [fst snd] in Hs. destruct Hs as (H1 & H2 & H3 & H4).
       cbn -[take FixAxisR_fill FixAxisR_targets np_zeros Nat.ltb]. rewrite H1.
       cbn -[take FixAxisR_fill FixAxisR_targets np_zeros Nat.ltb].
       rewrite !FixAxisR_ns_guard.
       match goal with
       | |- context [FixAxisR_fill ?ns 0 ?bm ?s] =>
           destruct (FixAxisR_fill_entries ns bm 0 s _ eq_refl)
             as (s0 & A & Hrun & HA & Ht & Hd & Hl & Hc & Hent)
       end.
       rewrite Hrun. cbn -[take FixAxisR_fill FixAxisR_targets np_zeros Nat.ltb].
       cbn in Ht, Hd. rewrite Ht.
       destruct (target self) as [t0 | ] eqn:Et0;
         cbn -[take FixAxisR_fill FixAxisR_targets np_zeros Nat.ltb];
         rewrite ?Hd; cbn -[take FixAxisR_fill FixAxisR_targets np_zeros Nat.ltb].
       - destruct (take t0 mi) as [t' | e] eqn:Etake;
           cbn -[take FixAxisR_fill FixAxisR_targets np_zeros Nat.ltb]; [ | discriminate ].
         match goal with
         | |- context [Objective_build ?e ?s] =>
             destruct (Hframe e s) as (Kt & KA & _ & Kd);
             destruct (Objective_build e s) as [s' r] eqn:E
         end.
         cbn in Kt, KA, Kd. destruct r; intros [= <- ].
         exists s0, A, t'. rewrite ?length_fmap in *. repeat split; try assumption.
         all: try congruence.
         all: try (apply length_take in Etake; congruence).
       - match goal with
         | |- context [FixAxisR_targets ?ns ?ps ?s] =>
             destruct (FixAxisR_targets_frame ns ps s _ eq_refl)
               as (s1 & t1 & Hrun1 & Ht1 & Hl1 & HA1 & Hd1)
         end.
         rewrite Hrun1. cbn -[take FixAxisR_fill FixAxisR_targets np_zeros Nat.ltb].
         match goal with
         | |- context [Objective_build ?e ?s] =>
             destruct (Hframe e s) as (Kt & KA & _ & Kd);
             destruct (Objective_build e s) as [s' r] eqn:E
         end.
         cbn in Kt, KA, Kd. destruct r; intros [= <- ].
         exists s0, A, t1. rewrite ?length_fmap in *.
         cbn in HA1, Hd1.
         repeat split; try assumption; try congruence.
         + rewrite Hl1. now rewrite length_replicate.
         + intros _. rewrite Kt, Ht1. now rewrite Hrun1. }
  all: rewrite ?FixAxisR_ns_guard.
  all: match goal with
       | |- context [FixAxisR_fill ?ns 0 ?bm ?s] =>
           destruct (FixAxisR_fill_entries ns bm 0 s _ eq_refl)
             as (s0 & A & Hrun & HA & Ht & Hd & Hl & Hc & Hent)
       end.
  all: cbn [length] in Hrun |- *.
  all: rewrite Hrun; cbn -[take FixAxisR_fill FixAxisR_targets np_zeros Nat.ltb].
  all: cbn in Ht, Hd; rewrite Ht, ?Hd.
  all: destruct (target self) as [t0 | ] eqn:Et0;
         cbn -[take FixAxisR_fill FixAxisR_targets np_zeros Nat.ltb]; try discriminate.
  all: try rewrite Hd; cbn -[take FixAxisR_fill FixAxisR_targets np_zeros Nat.ltb].
  all: match goal with
       | |- context [FixAxisR_targets ?ns ?ps ?s] =>
           destruct (FixAxisR_targets_frame ns ps s _ eq_refl)
             as (s1 & t1 & Hrun1 & Ht1 & Hl1 & HA1 & Hd1)
       end.
  all: rewrite Hrun1; cbn -[take FixAxisR_fill FixAxisR_targets np_zeros Nat.ltb].
  all: match goal with
       | |- context [Objective_build ?e ?s] =>
           destruct (Hframe e s) as (Kt & KA & _ & Kd);
           destruct (Objective_build e s) as [s' r] eqn:E
       end.
  all: cbn in Kt, KA, Kd, HA1, Hd1; destruct r; intros [= <- ].
  all: exists s0, A, t1; rewrite ?length_fmap in *.
  all: repeat split; try assumption; try congruence.
  all: try (rewrite Hl1; now rewrite length_replicate).
  all: try (intros _; rewrite Kt, Ht1; now rewrite Hrun1).
  all: intros _; rewrite Kt, Ht1; cbn -[FixAxisR_targets] in Hrun1; now rewrite Hrun1.
Qed.

(** X16: when [FixAxisR.build] returns, [_A] has one row per fixed axis
    mode and one column per mode of [eq.R_basis]; the entry of row [j]
    and column [i] is 1 or -1, by the parity of [l // 2], when mode [i]
    has [m = 0] and the [n] of row [j], and 0 otherwise.  [target] has
    [_dim_f] entries. *)
Theorem FixAxisR_build_entries (eq : EquilibriumMore T) (self self' : Objective T) :
  base_build_keeps ->
  FixAxisR_build eq self = (self', Ok tt) ->
  let ns := FixAxisR_ns eq (_modes self) in
  let basis_modes := modes (eq_R_basis (equilibrium eq)) in
  exists A t,
    _A self' = Some A /\ target self' = Some t /\
    _dim_f self' = Some (length ns) /\
    length (rows A) = length ns /\ length t = length ns /\
    ncols A = length basis_modes /\
    forall j i n l m k,
      ns !! j = Some n ->
      basis_modes !! i = Some (l, m, k) ->
      entry A j i =
      Some (if bool_decide (m = 0 /\ k = n) then axis_sign l else zero).
Proof.
  intros Hframe Hbuild ns basis_modes.
  destruct (FixAxisR_build_run eq self self' Hframe Hbuild)
    as (s0 & A & t & Hrun & HA0 & HA & Hd & Ht & Hlt & _).
  fold ns basis_modes in Hrun, Hd, Hlt.
  destruct (FixAxisR_fill_entries ns basis_modes 0
              (set_dim_f (length ns)
                 (set_A (np_zeros (length ns) (length basis_modes)) self))
              _ eq_refl)
    as (s0' & A' & Hrun' & HA' & _ & _ & Hl & Hc & Hent).
  rewrite Hrun in Hrun'. injection Hrun' as <-.
  rewrite HA0 in HA'. injection HA' as <-.
  exists A, t. repeat split; try assumption.
  - rewrite Hl. cbn. apply length_replicate.
  - intros j i n l m k Hj Hi. rewrite Hent.
    destruct (decide (0 <= i)%nat); [ | lia ].
    rewrite Nat.sub_0_r, Hi, entry_np_zeros.
    rewrite (bool_decide_eq_true_2 (j < length ns)%nat)
      by (eapply lookup_lt_Some, Hj).
    rewrite (bool_decide_eq_true_2 (i < length basis_modes)%nat)
      by (eapply lookup_lt_Some, Hi).
    cbn. destruct (decide (m = 0 /\ k = n)) as [[-> ->] | Hno].
    + now rewrite !bool_decide_eq_true_2 by (split; [ reflexivity | assumption || reflexivity ]).
    + rewrite !bool_decide_eq_false_2; [ reflexivity | exact Hno | ].
      intros [-> Hk]. apply Hno. split; [ reflexivity | congruence ].
Qed.

(** X17: [FixAxisR.build] with [modes=True] and no [target], on an axis
    whose modes have distinct [n] and one coefficient each, takes
    [eq.axis.R_n] as the target. *)
Theorem FixAxisR_build_default_target (eq : EquilibriumMore T)
    (self self' : Objective T) :
  base_build_keeps ->
  _modes self = ModesTrue ->
  target self = None ->
  NoDup (mode_n <$> modes (axis_R_basis (axis eq))) ->
  length (R_n (axis eq)) = num_modes (axis_R_basis (axis eq)) ->
  FixAxisR_build eq self = (self', Ok tt) ->
  target self' = Some (R_n (axis eq)) /\
  _dim_f self' = Some (length (R_n (axis eq))).
Proof.
  intros Hframe Hm Htgt Hnd Hlen Hbuild.
  destruct (FixAxisR_build_run eq self self' Hframe Hbuild)
    as (s0 & A & t & _ & _ & _ & Hd & _ & _ & Ht).
  rewrite Hm in Hd, Ht. cbn [FixAxisR_ns] in Hd, Ht.
  rewrite length_fmap in Hd, Ht. unfold num_modes in Hlen. split.
  - rewrite (Ht Htgt).
    pose proof (FixAxisR_targets_distinct []
                  (mode_n <$> modes (axis_R_basis (axis eq))) (R_n (axis eq))
                  (set_target (replicate (length (modes (axis_R_basis (axis eq)))) zero) s0)
                  (replicate (length (modes (axis_R_basis (axis eq)))) zero)) as Hrun.
    cbn [app length firstn] in Hrun. apply Hrun.
    + exact Hnd.
    + now rewrite length_fmap.
    + reflexivity.
    + now rewrite length_replicate, length_fmap.
  - now rewrite Hd, Hlen.
Qed.

End AxisBuild.

Lemma FixAxisR_build_entries_witness :
  base_build_keeps (T := Z) /\
  exists A t,
    _A (fst (FixAxisR_build Cases.eq_more Sample.plain)) = Some A /\
    target (fst (FixAxisR_build Cases.eq_more Sample.plain)) = Some t /\
    _dim_f (fst (FixAxisR_build Cases.eq_more Sample.plain)) = Some 2%nat /\
    length (rows A) = 2%nat /\ length t = 2%nat /\ ncols A = 3%nat /\
    forall j i n l m k,
      [0; 1] !! j = Some n ->
      modes Sample.basis !! i = Some (l, m, k) ->
      entry A j i =
      Some (if bool_decide (m = 0 /\ k = n) then axis_sign l else 0).
Proof.
  split; [ exact base_build_keeps_sample | ].
  exact (FixAxisR_build_entries Cases.eq_more Sample.plain
           (fst (FixAxisR_build Cases.eq_more Sample.plain))
           base_build_keeps_sample eq_refl).
Defined.

Lemma FixAxisR_build_default_target_witness :
  base_build_keeps (T := Z) /\
  NoDup (mode_n <$> modes (axis_R_basis (axis Cases.eq_more))) /\
  target (fst (FixAxisR_build Cases.eq_more Sample.plain)) = Some [10; 2] /\
  _dim_f (fst (FixAxisR_build Cases.eq_more Sample.plain)) = Some 2%nat.
Proof.
  assert (Hnd : NoDup (mode_n <$> modes (axis_R_basis (axis Cases.eq_more)))).
  { cbn. repeat constructor; rewrite ?elem_of_cons, ?elem_of_nil; intuition discriminate. }
  split; [ exact base_build_keeps_sample | ]. split; [ exact Hnd | ].
  exact (FixAxisR_build_default_target Cases.eq_more Sample.plain
           (fst (FixAxisR_build Cases.eq_more Sample.plain))
           base_build_keeps_sample eq_refl eq_refl Hnd eq_refl eq_refl).
Defined.

(** *** The fixed-boundary matrix of [FixBoundaryR] *)

Section BoundaryEntries.
Context {T : Type} `{Scalar T} `{Collaborators T}.

Lemma argwhere_mn_modes (picked : list mode) (m n : Z) :
  exists js, argwhere_mn (mode_row <$> picked) m n = Ok js /\
             forall j, j ∈ js <-> same_mn picked j m n = true.
Proof.
  unfold argwhere_mn.
  assert (Hflags : mapM (fun r => match tail r with
                                  | [m'; n'] => Ok (bool_decide (m' = m) && bool_decide (n' = n))
                                  | _ => Raise ValueError
                                  end) (mode_row <$> picked) =
                   Ok ((fun k : mode => let '(_, m', n') := k in
                                        bool_decide (m' = m) && bool_decide (n' = n))
                         <$> picked)).
  { induction picked as [ | [[l' m'] n'] picked IH ]; [ reflexivity | ].
    cbn [fmap list_fmap]. rewrite mapM_cons. cbn [mode_row tail].
    rewrite bind_Ok. fold (@fmap list _ _ _ mode_row picked). rewrite IH. reflexivity. }
  rewrite Hflags, bind_Ok. eexists. split; [ reflexivity | ].
  intros j. rewrite list_elem_of_fmap. unfold same_mn. split.
  - intros ([j' b] & -> & Hin). apply list_elem_of_filter in Hin as [Hb Hin].
    cbn in *. subst b. apply elem_of_lookup_imap in Hin as (k & w & [= -> ->] & Hk).
    rewrite list_lookup_fmap in Hk.
    destruct (picked !! k) as [[[l' m'] n'] | ]; [ | discriminate ].
    cbn in Hk. now injection Hk.
  - intros Hj. exists (j, true). split; [ reflexivity | ].
    apply list_elem_of_filter. split; [ reflexivity | ].
    apply elem_of_lookup_imap. exists j, true. split; [ reflexivity | ].
    rewrite list_lookup_fmap.
    destruct (picked !! j) as [[[l' m'] n'] | ]; [ | discriminate ].
    cbn. now rewrite Hj.
Qed.

(** The loop of the fixed-boundary branch on an ["lcfs"] equilibrium
    assigns [_A] only, keeps its shape, and writes the entries of the
    columns it visits. *)
Lemma FixBoundaryR_fill_entries (eq : Equilibrium T) (picked : list mode)
    (basis_modes : list mode) (i : nat) (self : Objective T) (A : matrix T) :
  String.eqb (bdry_mode eq) "lcfs" = true ->
  _A self = Some A ->
  let surf := match _surface_label self with
              | None => rho (surface eq)
              | Some s => s
              end in
  exists self' A',
    FixBoundaryR_fill eq (mode_row <$> picked) i basis_modes self = (self', Ok tt) /\
    _A self' = Some A' /\ target self' = target self /\
    _dim_f self' = _dim_f self /\ _normalize self' = _normalize self /\
    forall j k,
      entry A' j k =
      match (if decide (i <= k)%nat then basis_modes !! (k - i)%nat else None) with
      | Some (l, m, n) =>
          if same_mn picked j m n
          then (fun _ => zernike_radial surf l m) <$> entry A j k else entry A j k
      | None => entry A j k
      end.
Proof.
  intros Hl. revert i self A.
  induction basis_modes as [ | [[l m] n] rest IH ]; intros i self A HA surf.
  - exists self, A. cbn. repeat split; try assumption.
    intros j k. destruct (decide (i <= k)%nat); reflexivity.
  - cbn [FixBoundaryR_fill]. run_method. rewrite Hl.
    destruct (argwhere_mn_modes picked m n) as (js & -> & Hjs). cbn.
    rewrite HA. cbn. fold surf.
    set (A1 := set_entries A js i (zernike_radial surf l m)).
    destruct (IH (S i) (set_A A1 self) A1 eq_refl)
      as (s' & A' & Hrun & HA' & Ht & Hd & Hn & Hent).
    cbn [_surface_label set_A] in Hent. fold surf in Hent.
    exists s', A'. rewrite Hrun. repeat split; try assumption.
    intros j k. rewrite Hent.
    destruct (decide (S i <= k)%nat) as [Hk | Hk].
    + destruct (decide (i <= k)%nat); [ | lia ].
      replace (k - i)%nat with (S (k - S i)) by lia. cbn [lookup list_lookup].
      assert (He : entry A1 j k = entry A j k).
      { unfold A1. rewrite entry_set_entries.
        rewrite (bool_decide_eq_false_2 (k = i)) by lia.
        now rewrite andb_false_r. }
      now rewrite He.
    + unfold A1. rewrite entry_set_entries.
      destruct (decide (i <= k)%nat) as [Hik | Hik].
      * assert (k = i) as -> by lia. rewrite Nat.sub_diag. cbn [lookup list_lookup].
        rewrite (bool_decide_eq_true_2 (i = i)) by reflexivity.
        rewrite andb_true_r.
        destruct (same_mn picked j m n) eqn:Es.
        -- rewrite bool_decide_eq_true_2; [ reflexivity | now apply Hjs ].
        -- rewrite bool_decide_eq_false_2; [ reflexivity | ].
           rewrite Hjs. congruence.
      * rewrite (bool_decide_eq_false_2 (k = i)) by lia.
        now rewrite andb_false_r.
Qed.

(** X18: when [FixBoundaryR.build] returns with [fixed_boundary] on an
    ["lcfs"] equilibrium, the entry of [_A] in the row of a fixed surface
    mode and the column of a mode [l, m, n] of [eq.R_basis] is
    [zernike_radial(surf, l, m)] when the two modes share [m] and [n],
    and 0 otherwise; [surf] is [surface_label], or [eq.surface.rho]
    when that is [None]. *)
Theorem FixBoundaryR_build_fixed_entries (eq : Equilibrium T)
    (self self' : Objective T) :
  base_build_keeps ->
  _fixed_boundary self = true ->
  String.eqb (bdry_mode eq) "lcfs" = true ->
  FixBoundaryR_build eq self = (self', Ok tt) ->
  let picked := FixBoundaryR_modes eq (_modes self) in
  let surf := match _surface_label self with
              | None => rho (surface eq)
              | Some s => s
              end in
  exists A,
    _A self' = Some A /\
    forall j i l m n,
      (j < length picked)%nat ->
      modes (eq_R_basis eq) !! i = Some (l, m, n) ->
      entry A j i =
      Some (if same_mn picked j m n then zernike_radial surf l m else zero).
Proof.
  intros Hframe Hfb Hl Hbuild picked surf.
  destruct (FixBoundaryR_build_fixed eq self self' Hframe Hfb Hbuild)
    as (A0 & t0 & HA0 & _).
  destruct (_modes self) as [ | | | ms ] eqn:Hsel.
  2, 3: exists A0; split; [ exact HA0 | ]; intros j i l m n Hj; cbn in Hj; lia.
  all: revert Hbuild; unfold FixBoundaryR_build.
  all: unfold mbind, mret, method_bind, method_ret, gets, lift, raise, assign.
  all: cbn -[intersect1d take arange num_modes FixBoundaryR_fill np_zeros].
  all: rewrite Hsel; cbn -[intersect1d take arange num_modes FixBoundaryR_fill np_zeros].
  - destruct (target self) as [t | ] eqn:Ht;
      cbn -[intersect1d take arange num_modes FixBoundaryR_fill np_zeros];
      [ discriminate | ].
    rewrite Hfb. cbn -[intersect1d take arange num_modes FixBoundaryR_fill np_zeros].
    match goal with
    | |- context [FixBoundaryR_fill eq (mode_row <$> ?pk) 0 ?bm ?s] =>
        destruct (FixBoundaryR_fill_entries eq pk bm 0 s _ Hl eq_refl)
          as (s0 & A & Hrun & HA & Kt0 & Kd0 & Kn0 & Hent)
    end.
    rewrite Hrun. cbn -[intersect1d take arange num_modes np_zeros] in Kt0, Kn0, Hent |- *.
    rewrite Kt0, Ht. cbn -[intersect1d take arange num_modes np_zeros].
    destruct (take (R_lmn (surface eq)) (arange (num_modes (R_basis (surface eq)))))
      as [t' | ]; cbn -[np_zeros]; [ | discriminate ].
    rewrite Kn0.
    destruct (_normalize self); cbn -[np_zeros];
      try (destruct (compute_scaling_factors eq !! "a"); cbn -[np_zeros]; [ | discriminate ]).
    all: match goal with
         | |- context [Objective_build ?e ?s] =>
             destruct (Hframe e s) as (_ & KA & _ & _);
             destruct (Objective_build e s) as [s' r] eqn:E
         end.
    all: cbn -[np_zeros] in KA; destruct r; intros [= <- ].
    all: exists A; split; [ congruence | ].
    all: intros j i l m n Hj Hi; rewrite Hent.
    all: destruct (decide (0 <= i)%nat); [ | lia ].
    all: rewrite Nat.sub_0_r, Hi, entry_np_zeros.
    all: rewrite length_arange.
    all: rewrite (bool_decide_eq_true_2 _ Hj).
    all: rewrite (bool_decide_eq_true_2 (i < num_modes (eq_R_basis eq))%nat)
           by (eapply lookup_lt_Some, Hi).
    all: cbn; now destruct (same_mn _ j m n).
  - pose proof (intersect1d_spec (modes (R_basis (surface eq))) ms) as Hs.
    subst picked. cbn [FixBoundaryR_modes].
    destruct (intersect1d (modes (R_basis (surface eq))) ms) as [[c i0] mi].
    cbn [fst snd] in Hs |- *. destruct Hs as (H1 & H2 & H3 & H4).
    cbn -[intersect1d take arange num_modes FixBoundaryR_fill np_zeros].
    rewrite H1. cbn -[intersect1d take arange num_modes FixBoundaryR_fill np_zeros].
    destruct (target self) as [t | ] eqn:Ht;
      cbn -[intersect1d take arange num_modes FixBoundaryR_fill np_zeros].
    1: destruct (take t mi) as [t1 | ] eqn:Et1;
         cbn -[intersect1d take arange num_modes FixBoundaryR_fill np_zeros];
         [ | discriminate ].
    all: rewrite Hfb; cbn -[intersect1d take arange num_modes FixBoundaryR_fill np_zeros].
    all: match goal with
         | Hl' : String.eqb _ _ = true
           |- context [FixBoundaryR_fill ?e (mode_row <$> ?pk) 0 ?bm ?s] =>
             destruct (FixBoundaryR_fill_entries e pk bm 0 s _ Hl' eq_refl)
               as (s0 & A & Hrun & HA & Kt0 & Kd0 & Kn0 & Hent)
         end.
    all: rewrite Hrun;
         cbn -[intersect1d take arange num_modes np_zeros] in Kt0, Kn0, Hent |- *.
    all: rewrite Kt0, ?Ht; cbn -[intersect1d take arange num_modes np_zeros].
    2: destruct (take (R_lmn (surface eq)) i0) as [t' | ]; cbn -[np_zeros];
         [ | discriminate ].
    all: rewrite Kn0.
    all: destruct (_normalize self); cbn -[np_zeros];
      try (destruct (compute_scaling_factors eq !! "a"); cbn -[np_zeros]; [ | discriminate ]).
    all: match goal with
         | |- context [Objective_build ?e ?s] =>
             destruct (Hframe e s) as (_ & KA & _ & _);
             destruct (Objective_build e s) as [s' r] eqn:E
         end.
    all: cbn -[np_zeros] in KA; destruct r; intros [= <- ].
    all: exists A; split; [ congruence | ].
    all: intros j i l m n Hj Hi; rewrite Hent.
    all: destruct (decide (0 <= i)%nat); [ | lia ].
    all: rewrite Nat.sub_0_r, Hi, entry_np_zeros.
    all: rewrite (bool_decide_eq_true_2 (j < length i0)%nat) by congruence.
    all: rewrite (bool_decide_eq_true_2 (i < num_modes (eq_R_basis eq))%nat)
           by (eapply lookup_lt_Some, Hi).
    all: cbn; now destruct (same_mn _ j m n).
Qed.

End BoundaryEntries.

Lemma FixBoundaryR_build_fixed_entries_witness :
  base_build_keeps (T := Z) /\
  exists A,
    _A (fst (FixBoundaryR_build Sample.eq Sample.chosen)) = Some A /\
    forall j i l m n,
      (j < 2)%nat ->
      modes Sample.basis !! i = Some (l, m, n) ->
      entry A j i =
      Some (if same_mn [(0, 0, 0); (2, 0, 0)] j m n then 1 else 0).
Proof.
  split; [ exact base_build_keeps_sample | ].
  exact (FixBoundaryR_build_fixed_entries Sample.eq Sample.chosen
           (fst (FixBoundaryR_build Sample.eq Sample.chosen))
           base_build_keeps_sample eq_refl eq_refl eq_refl).
Defined.

End LinearObjectivesMoreFacts.
